(** * arcor2_arserver.helpers: naming helpers and scoped lock acquisition

    A shallow embedding of [src/python/arcor2_arserver/helpers.py].

    - Python [str] is [string], [Set[str]] is [gset string], a Python [int]
      counter that only grows from 1 is [nat].
    - [async] functions are state-passing functions over a [World] (the lock
      table behind [glob.LOCK] plus a trace of the calls made on it and of
      the sleeps), returning either a value or a raised exception. *)

From stdpp Require Import base decidable option list strings pretty gmap.

#[local] Set Warnings "-clear-no-such-hyp".

Open Scope string_scope.
Open Scope nat_scope.
Open Scope list_scope.

(** ** Names *)

(** [f"{orig_name}_{cnt}"] *)
Definition suffixed (orig_name : string) (cnt : nat) : string :=
  orig_name +:+ "_" +:+ pretty cnt.

(** The [while name in names] loop of [make_name_unique]; [fuel] bounds the
    number of times the loop body may run, [None] means the bound was hit
    while the loop condition still held. *)
Fixpoint make_name_unique_loop (fuel : nat) (orig_name : string)
    (names : gset string) (name : string) (cnt : nat) : option string :=
  if decide (name ∈ names) then
    match fuel with
    | 0 => None
    | S fuel' =>
        make_name_unique_loop fuel' orig_name names (suffixed orig_name cnt) (S cnt)
    end
  else Some name.

(** [make_name_unique(orig_name, names)]: [cnt = 1; name = orig_name], then
    the loop, then [return name]. *)
Definition make_name_unique (fuel : nat) (orig_name : string)
    (names : gset string) : option string :=
  make_name_unique_loop fuel orig_name names orig_name 1.

(** ** Exceptions

    A raised Python exception is kept as the name of its class, the names of
    the classes it derives from, and its message. *)
Record PyExc := mkExc {
  exc_class : string;
  exc_bases : list string;
  exc_msg : string
}.

Global Instance PyExc_eq_dec : EqDecision PyExc.
Proof. solve_decision. Defined.

(** [isinstance(e, cls)] *)
Definition isinstance (e : PyExc) (cls : string) : bool :=
  bool_decide (cls ∈ exc_class e :: exc_bases e).

(** ** Arguments of the lock calls *)

(** [obj_ids: Union[str, Iterable[str]]] *)
Inductive ObjIds :=
  | OneId (obj_id : string)
  | ManyIds (obj_ids : list string).

Global Instance ObjIds_eq_dec : EqDecision ObjIds.
Proof. solve_decision. Defined.

(** The delay handed to the retry decorator; only ever passed on to the
    sleep, never computed with. *)
Definition Duration := N.

(** ** The lock package the helpers are written against

    [helpers.py] uses the object [glob.LOCK] and the two exception classes of
    [arcor2_arserver.lock.exceptions]; neither is defined in this file, so
    the helpers are embedded over an interface with one field per member
    they use.  Acquisition returns its verdict and the new table; release
    and the two queries cannot fail.  [is_write_locked] takes the tree flag
    as its third argument; a call that leaves it out passes [false]. *)
Class LockPkg (Table : Type) := {
  write_lock : ObjIds → string → Table → bool * Table;
  read_lock : ObjIds → string → Table → bool * Table;
  write_unlock : ObjIds → string → Table → Table;
  read_unlock : ObjIds → string → Table → Table;
  is_write_locked : string → string → bool → Table → bool;
  is_read_locked : string → string → Table → bool;
  _lock_retries : nat;
  _retry_wait : Duration;
  LOCK_FAIL : string;
  CannotLock_bases : list string;
  LockingException_bases : list string
}.

(** What an observer of [glob.LOCK] and of the event loop sees. *)
Inductive Event :=
  | CallWriteLock (obj_ids : ObjIds) (owner : string) (ok : bool)
  | CallReadLock (obj_ids : ObjIds) (owner : string) (ok : bool)
  | CallWriteUnlock (obj_ids : ObjIds) (owner : string)
  | CallReadUnlock (obj_ids : ObjIds) (owner : string)
  | Sleep (delay : Duration).

Global Instance Event_eq_dec : EqDecision Event.
Proof. solve_decision. Defined.

Definition is_attempt (ev : Event) : bool :=
  match ev with
  | CallWriteLock _ _ _ | CallReadLock _ _ _ => true
  | _ => false
  end.

Definition is_release (ev : Event) : bool :=
  match ev with
  | CallWriteUnlock _ _ | CallReadUnlock _ _ => true
  | _ => false
  end.

Definition is_sleep (ev : Event) : bool :=
  match ev with
  | Sleep _ => true
  | _ => false
  end.

Record World (Table : Type) := mkWorld {
  table : Table;
  trace : list Event
}.
Arguments mkWorld {Table} _ _.
Arguments table {Table} _.
Arguments trace {Table} _.

(** How a piece of Python code ends. *)
Inductive Outcome (A : Type) :=
  | Returned (a : A)
  | Raised (e : PyExc).
Arguments Returned {A} _.
Arguments Raised {A} _.

(** A coroutine: runs from a world, ends in an outcome and a world. *)
Definition Async (Table A : Type) : Type := World Table → Outcome A * World Table.

Section Control.
Context {Table : Type}.

Definition ret {A} (a : A) : Async Table A := λ w, (Returned a, w).

Definition raise {A} (e : PyExc) : Async Table A := λ w, (Raised e, w).

Definition bind {A B} (m : Async Table A) (k : A → Async Table B) : Async Table B :=
  λ w, match m w with
       | (Returned a, w') => k a w'
       | (Raised e, w') => (Raised e, w')
       end.

(** [try: body except cls: handler] where the handler sees the exception. *)
Definition try_except {A} (body : Async Table A) (cls : string)
    (handler : PyExc → Async Table A) : Async Table A :=
  λ w, match body w with
       | (Returned a, w') => (Returned a, w')
       | (Raised e, w') =>
           if isinstance e cls then handler e w' else (Raised e, w')
       end.

(** [try: body finally: fin]: [fin] always runs; the outcome of [body]
    stands unless [fin] itself raises. *)
Definition try_finally {A} (body : Async Table A) (fin : Async Table unit) : Async Table A :=
  λ w, match body w with
       | (o, w') =>
           match fin w' with
           | (Returned _, w'') => (o, w'')
           | (Raised e, w'') => (Raised e, w'')
           end
       end.

Definition log (ev : Event) : Async Table unit :=
  λ w, (Returned tt, mkWorld (table w) (trace w ++ [ev])).

(** [await asyncio.sleep(delay)] *)
Definition sleep (delay : Duration) : Async Table unit := log (Sleep delay).
End Control.

Declare Scope async_scope.
Delimit Scope async_scope with async.
Notation "x ← m ; k" := (bind m (λ x, k))
  (at level 20, m at level 100, k at level 200, only parsing) : async_scope.
Notation "m ;; k" := (bind m (λ _, k))
  (at level 100, k at level 200, right associativity) : async_scope.
Open Scope async_scope.

(** ** The retry decorator *)
Section Retry.
Context {Table A : Type}.

(** Modelled from the spec: the loop of [arcor2_arserver.decorators.retry],
    which [helpers.py] imports and which is defined elsewhere.  The spec
    gives it as "attempt [acquire]; on [false], wait a configured delay
    and retry, up to a configured maximum attempt count; if exhausted,
    signal a locking-failed condition".  [exc] is the class of the
    exceptions that count as a failed attempt, any other exception passes
    through at once; [more] is the number of attempts still allowed after
    the one about to be made. *)
Fixpoint retry_loop (more : nat) (exc : string) (delay : Duration)
    (f : Async Table A) : Async Table A :=
  λ w, match f w with
       | (Returned a, w') => (Returned a, w')
       | (Raised e, w') =>
           if isinstance e exc then
             match more with
             | 0 => (Raised e, w')
             | S more' => (sleep delay ;; retry_loop more' exc delay f) w'
             end
           else (Raised e, w')
       end.

(** Modelled from the spec: the decorator [retry(exc, tries, delay)]
    itself; [tries] is the "configured maximum attempt count", an integer
    of at least 1. *)
Definition retry (exc : string) (tries : nat) (delay : Duration)
    (f : Async Table A) : Async Table A :=
  retry_loop (tries - 1) exc delay f.
End Retry.

(** ** helpers.py *)
Section Helpers.
Context {Table : Type} `{!LockPkg Table}.

(** [CannotLock(msg)] and [LockingException(msg)] *)
Definition CannotLock (msg : string) : PyExc :=
  mkExc "CannotLock" CannotLock_bases msg.
Definition LockingException (msg : string) : PyExc :=
  mkExc "LockingException" LockingException_bases msg.

(** The awaited calls on [glob.LOCK], each leaving its mark in the trace. *)
Definition await_write_lock (obj_ids : ObjIds) (owner : string) : Async Table bool :=
  λ w, let '(ok, t) := write_lock obj_ids owner (table w) in
       (Returned ok, mkWorld t (trace w ++ [CallWriteLock obj_ids owner ok])).
Definition await_read_lock (obj_ids : ObjIds) (owner : string) : Async Table bool :=
  λ w, let '(ok, t) := read_lock obj_ids owner (table w) in
       (Returned ok, mkWorld t (trace w ++ [CallReadLock obj_ids owner ok])).
Definition await_write_unlock (obj_ids : ObjIds) (owner : string) : Async Table unit :=
  λ w, (Returned tt, mkWorld (write_unlock obj_ids owner (table w))
                             (trace w ++ [CallWriteUnlock obj_ids owner])).
Definition await_read_unlock (obj_ids : ObjIds) (owner : string) : Async Table unit :=
  λ w, (Returned tt, mkWorld (read_unlock obj_ids owner (table w))
                             (trace w ++ [CallReadUnlock obj_ids owner])).
Definition await_is_write_locked (obj_id owner : string) (check_tree : bool)
    : Async Table bool :=
  λ w, (Returned (is_write_locked obj_id owner check_tree (table w)), w).
Definition await_is_read_locked (obj_id owner : string) : Async Table bool :=
  λ w, (Returned (is_read_locked obj_id owner (table w)), w).

(** [if cond: stmt] *)
Definition when (cond : bool) (stmt : Async Table unit) : Async Table unit :=
  if cond then stmt else ret tt.

(** The decorated inner coroutine [lock] of [ctx_write_lock]. *)
Definition write_lock_retrying (obj_ids : ObjIds) (owner : string) : Async Table unit :=
  retry "CannotLock" _lock_retries _retry_wait
    (ok ← await_write_lock obj_ids owner;
     when (negb ok) (raise (CannotLock LOCK_FAIL))).

(** [ctx_write_lock], a context manager: [body] is the block of the
    [async with], which runs where the generator says [yield]; an
    exception of the block is raised at the [yield]. *)
Definition ctx_write_lock (obj_ids : ObjIds) (owner : string)
    (auto_unlock dry_run : bool) (body : Async Table unit) : Async Table unit :=
  write_lock_retrying obj_ids owner ;;
  try_finally
    (try_except body "Arcor2Exception"
       (λ e, when (negb dry_run && negb auto_unlock)
               (await_write_unlock obj_ids owner) ;;
             raise e))
    (when (dry_run || auto_unlock) (await_write_unlock obj_ids owner)).

(** The decorated inner coroutine [lock] of [ctx_read_lock]. *)
Definition read_lock_retrying (obj_ids : ObjIds) (owner : string) : Async Table unit :=
  retry "CannotLock" _lock_retries _retry_wait
    (ok ← await_read_lock obj_ids owner;
     when (negb ok) (raise (CannotLock LOCK_FAIL))).

Definition ctx_read_lock (obj_ids : ObjIds) (owner : string)
    (auto_unlock dry_run : bool) (body : Async Table unit) : Async Table unit :=
  read_lock_retrying obj_ids owner ;;
  try_finally
    (try_except body "Arcor2Exception"
       (λ e, when (negb dry_run && negb auto_unlock)
               (await_read_unlock obj_ids owner) ;;
             raise e))
    (when (dry_run || auto_unlock) (await_read_unlock obj_ids owner)).

Definition ensure_write_locked (obj_id owner : string) (locked_tree : bool)
    : Async Table unit :=
  locked ← await_is_write_locked obj_id owner locked_tree;
  when (negb locked) (raise (LockingException "Object is not write locked.")).

(** [locked_tree] is a parameter of the function and does not occur in
    its body. *)
Definition ensure_read_locked (obj_id owner : string) (locked_tree : bool)
    : Async Table unit :=
  locked ← await_is_read_locked obj_id owner;
  when (negb locked) (raise (LockingException "Object is not write locked.")).

(** [if isinstance(obj_ids, str): obj_ids = [obj_ids]] *)
Definition as_list (obj_ids : ObjIds) : list string :=
  match obj_ids with
  | OneId obj_id => [obj_id]
  | ManyIds l => l
  end.

(** The set comprehension of [get_unlocked_objects], one awaited query per
    element, in order. *)
Fixpoint unlocked_among (l : list string) (owner : string) : Async Table (gset string) :=
  match l with
  | [] => ret ∅
  | obj_id :: rest =>
      locked ← await_is_write_locked obj_id owner false;
      others ← unlocked_among rest owner;
      ret (if locked then others else {[obj_id]} ∪ others)
  end.

Definition get_unlocked_objects (obj_ids : ObjIds) (owner : string)
    : Async Table (gset string) :=
  unlocked_among (as_list obj_ids) owner.
End Helpers.

(** ** The lock table

    The class behind [glob.LOCK] ([arcor2_arserver.lock]) is not part of
    [helpers.py]; sections 3 and 4.1 to 4.3 of the spec describe it and this
    module follows their words. *)
Module Lock.

(** Modelled from the spec: the [mode] of a lock record, "[Read] or
    [Write]"; the class itself is in [arcor2_arserver.lock]. *)
Inductive Mode := Read | Write.

Global Instance Mode_eq_dec : EqDecision Mode.
Proof. solve_decision. Defined.

(** Modelled from the spec: the lock record of section 3, absent from the
    sources like the rest of [arcor2_arserver.lock]: a mode, a set of
    holders and an optional [tree_root] naming the root and the owner of
    the tree lock it was taken under.  An id without a record is
    unlocked. *)
Record LockRecord := mkRecord {
  mode : Mode;
  holders : gset string;
  tree_root : option (string * string)
}.

Global Instance LockRecord_eq_dec : EqDecision LockRecord.
Proof. solve_decision. Defined.

Abbreviation LockTable := (gmap string LockRecord).

(** Modelled from the spec: the compatibility test of [try_acquire], not
    in the sources.  "[Read] is compatible with [Read] (any holder set) and with no existing
    lock; [Write] is compatible only with no existing lock, or with an
    existing [Read]/[Write] lock whose sole holder is the same owner". *)
Definition compatible (t : LockTable) (owner : string) (m : Mode) (id : string) : bool :=
  match t !! id with
  | None => true
  | Some r =>
      match m with
      | Read => bool_decide (mode r = Read)
      | Write => bool_decide (holders r = {[owner]})
      end
  end.

(** Modelled from the spec: one hold of [try_acquire] applied ("applies
    all the holds"), not in the sources: a record is created, or the owner
    joins the one that is there. *)
Definition hold (root : option (string * string)) (owner : string) (m : Mode)
    (t : LockTable) (id : string) : LockTable :=
  match t !! id with
  | None => <[id := mkRecord m {[owner]} root]> t
  | Some r => <[id := mkRecord m ({[owner]} ∪ holders r) (tree_root r)]> t
  end.

(** Modelled from the spec: [try_acquire] of section 4.1, not in the
    sources.  "atomically checks every id in [ids] for compatibility ...;
    if and only if all are compatible, applies all the holds and returns
    success.  No partial effects on failure."  [root] is what the records
    created note as their [tree_root]. *)
Definition try_acquire_under (root : option (string * string)) (ids : list string)
    (owner : string) (m : Mode) (t : LockTable) : bool * LockTable :=
  if forallb (compatible t owner m) ids
  then (true, foldl (hold root owner m) t ids)
  else (false, t).

(** Modelled from the spec: [try_acquire(ids, owner, mode)] for ids
    requested individually, not in the sources. *)
Definition try_acquire (ids : list string) (owner : string) (m : Mode)
    (t : LockTable) : bool * LockTable :=
  try_acquire_under None ids owner m t.

(** Modelled from the spec: [release] of section 4.1 on one id, not in
    the sources.  "removes [owner] from each id's holder set for the
    matching mode; deletes the record if the holder set becomes empty.  Releasing a lock
    the owner does not hold is a no-op". *)
Definition release_one (owner : string) (m : Mode) (t : LockTable) (id : string)
    : LockTable :=
  match t !! id with
  | None => t
  | Some r =>
      if bool_decide (mode r = m ∧ owner ∈ holders r) then
        if bool_decide (holders r ∖ {[owner]} = ∅) then delete id t
        else <[id := mkRecord (mode r) (holders r ∖ {[owner]}) (tree_root r)]> t
      else t
  end.

(** Modelled from the spec: [release(ids, owner, mode)], not in the
    sources. *)
Definition release (ids : list string) (owner : string) (m : Mode)
    (t : LockTable) : LockTable :=
  foldl (release_one owner m) t ids.

(** Modelled from the spec: [is_locked] of section 4.1, not in the
    sources.  "true if [owner] holds [mode] on [id] directly, or (when
    [include_tree]) via a tree lock covering [id]"; a record without
    [tree_root] is a direct hold, one with [tree_root] was taken under the
    tree lock of the owner it names. *)
Definition is_locked (id owner : string) (m : Mode) (include_tree : bool)
    (t : LockTable) : bool :=
  match t !! id with
  | None => false
  | Some r =>
      bool_decide (mode r = m) && bool_decide (owner ∈ holders r) &&
      match tree_root r with
      | None => true
      | Some (_, by_owner) => include_tree && bool_decide (by_owner = owner)
      end
  end.

(** Modelled from the spec: the graph-structure provider of section 6,
    an external collaborator: [children_of] and [exists]. *)
Record Graph := mkGraph {
  children_of : string → list string;
  exists_ : string → bool
}.

(** Modelled from the spec: the tree resolver of section 4.2, not in the
    sources: "the object plus all descendants", here down to [depth]
    levels. *)
Fixpoint subtree (depth : nat) (g : Graph) (id : string) : list string :=
  id :: match depth with
        | 0 => []
        | S d => flat_map (subtree d g) (children_of g id)
        end.

(** Modelled from the spec: the resolver's entry, not in the sources.  "If
    the root id does not exist, resolves to the empty set". *)
Definition resolve (depth : nat) (g : Graph) (root : string) : list string :=
  if exists_ g root then subtree depth g root else [].

(** Modelled from the spec: the three results of the acquisition engine
    of section 4.3, not in the sources. *)
Inductive Verdict := Granted | Contended | NotFound.

(** Modelled from the spec: the acquisition engine of section 4.3 for a
    tree lock, not in the sources: "lock this node and its whole subtree"
    as one all-or-nothing step; each record created notes the root and
    the owner of the tree lock. *)
Definition acquire_tree (depth : nat) (g : Graph) (root owner : string) (m : Mode)
    (t : LockTable) : Verdict * LockTable :=
  match resolve depth g root with
  | [] => (NotFound, t)
  | ids =>
      match try_acquire_under (Some (root, owner)) ids owner m t with
      | (true, t') => (Granted, t')
      | (false, t') => (Contended, t')
      end
  end.

(** Modelled from the spec: the configuration of section 6,
    "[max_attempts]: integer >= 1, [retry_delay]: duration >= 0", together
    with the constants of the package that are declared outside
    [helpers.py]: the text of [ErrMessages.LOCK_FAIL] and the base classes
    of the two exceptions. *)
Class Config := mkConfig {
  max_attempts : nat;
  retry_delay : Duration;
  lock_fail_message : string;
  cannot_lock_bases : list string;
  locking_exception_bases : list string
}.

(** Modelled from the spec: [glob.LOCK] as the helpers see it, each method
    by the table operation of section 4.1 it stands for.  The methods are
    called without a tree flag by the context managers, so they acquire
    and release the ids individually; [is_read_locked] is called with two
    arguments and asks for a direct hold. *)
Global Instance pkg {cfg : Config} : LockPkg LockTable := {|
  write_lock := λ obj_ids owner, try_acquire (as_list obj_ids) owner Write;
  read_lock := λ obj_ids owner, try_acquire (as_list obj_ids) owner Read;
  write_unlock := λ obj_ids owner, release (as_list obj_ids) owner Write;
  read_unlock := λ obj_ids owner, release (as_list obj_ids) owner Read;
  is_write_locked := λ obj_id owner check_tree, is_locked obj_id owner Write check_tree;
  is_read_locked := λ obj_id owner, is_locked obj_id owner Read false;
  _lock_retries := max_attempts;
  _retry_wait := retry_delay;
  LOCK_FAIL := lock_fail_message;
  CannotLock_bases := cannot_lock_bases;
  LockingException_bases := locking_exception_bases
|}.



(** The owner is among the holders of [id], in whatever mode and way. *)
Definition holds_any (t : LockTable) (id owner : string) : Prop :=
  ∃ r, t !! id = Some r ∧ owner ∈ holders r.


(** The owner is among the holders of the record of [id], and that
    record has mode [m]. *)
Definition holds (t : LockTable) (id owner : string) (m : Mode) : Prop :=
  ∃ r, t !! id = Some r ∧ mode r = m ∧ owner ∈ holders r.

(** The invariants of section 3 on the records of a table: a record has a
    holder, and a [Write] record has exactly one. *)
Definition well_formed (t : LockTable) : Prop :=
  map_Forall (λ _ r, holders r ≠ ∅ ∧ (mode r = Write → size (holders r) = 1)) t.

(** What a successful acquisition makes of the entry of one id. *)
Definition joined (root : option (string * string)) (owner : string) (m : Mode)
    (entry : option LockRecord) : LockRecord :=
  match entry with
  | None => mkRecord m {[owner]} root
  | Some r => mkRecord m ({[owner]} ∪ holders r) (tree_root r)
  end.

(** What a release makes of the entry of one id. *)
Definition dropped (owner : string) (m : Mode) (entry : option LockRecord)
    : option LockRecord :=
  match entry with
  | None => None
  | Some r =>
      if bool_decide (mode r = m ∧ owner ∈ holders r) then
        if bool_decide (holders r ∖ {[owner]} = ∅) then None
        else Some (mkRecord (mode r) (holders r ∖ {[owner]}) (tree_root r))
      else Some r
  end.

End Lock.

(** ** Vocabulary of the statements *)

(** Whether the context manager calls the unlock method, given its two
    knobs and the way the block ended: the [finally] clause does under
    [dry_run or auto_unlock], the [except Arcor2Exception] clause does
    otherwise. *)
Definition releases (auto_unlock dry_run : bool) (o : Outcome unit) : bool :=
  dry_run || auto_unlock ||
  match o with
  | Returned _ => false
  | Raised e => isinstance e "Arcor2Exception"
  end.

Section Observations.
Context {Table : Type} `{!LockPkg Table}.

(** The world after one call of the unlock method. *)
Definition write_unlocked (obj_ids : ObjIds) (owner : string) (w : World Table)
    : World Table :=
  mkWorld (write_unlock obj_ids owner (table w))
          (trace w ++ [CallWriteUnlock obj_ids owner]).
Definition read_unlocked (obj_ids : ObjIds) (owner : string) (w : World Table)
    : World Table :=
  mkWorld (read_unlock obj_ids owner (table w))
          (trace w ++ [CallReadUnlock obj_ids owner]).

(** The trace a run of the retry loop leaves when every attempt fails
    without touching the table: the attempt, then a sleep and another
    attempt for each retry. *)
Definition failed_attempts (more : nat) (delay : Duration) (attempt : Event)
    : list Event :=
  attempt :: concat (replicate more [Sleep delay; attempt]).

(** The two context managers and their parts, by the mode they lock in. *)
Definition ctx_lock (m : Lock.Mode) :
    ObjIds → string → bool → bool → Async Table unit → Async Table unit :=
  match m with
  | Lock.Write => ctx_write_lock
  | Lock.Read => ctx_read_lock
  end.

Definition lock_retrying (m : Lock.Mode) : ObjIds → string → Async Table unit :=
  match m with
  | Lock.Write => write_lock_retrying
  | Lock.Read => read_lock_retrying
  end.

Definition unlocked (m : Lock.Mode) : ObjIds → string → World Table → World Table :=
  match m with
  | Lock.Write => write_unlocked
  | Lock.Read => read_unlocked
  end.

Definition attempt (m : Lock.Mode) (obj_ids : ObjIds) (owner : string) (ok : bool)
    : Event :=
  match m with
  | Lock.Write => CallWriteLock obj_ids owner ok
  | Lock.Read => CallReadLock obj_ids owner ok
  end.

(** The number of events of a kind in a trace. *)
Definition count (kind : Event → bool) (tr : list Event) : nat :=
  length (filter (λ ev, kind ev = true) tr).
End Observations.

(** ** Sample data for the worked examples *)

Definition sample_config : Lock.Config :=
  Lock.mkConfig 3 2%N "Locking failed."
    ["LockingException"; "Arcor2Exception"; "Exception"; "BaseException"]
    ["Arcor2Exception"; "Exception"; "BaseException"].

(** A built-in exception, which does not derive from [Arcor2Exception]. *)
Definition sample_KeyError : PyExc :=
  mkExc "KeyError" ["LookupError"; "Exception"; "BaseException"] "pose".

Definition sample_Arcor2Exception : PyExc :=
  mkExc "Arcor2Exception" ["Exception"; "BaseException"] "Scene not started.".

Definition empty_world : World Lock.LockTable := mkWorld ∅ [].

(** The scene of the spec's example: root "scene1" with children "obj1" and
    "obj2". *)
Definition sample_graph : Lock.Graph :=
  Lock.mkGraph
    (λ id, if decide (id = "scene1") then ["obj1"; "obj2"] else [])
    (λ id, bool_decide (id ∈ ["scene1"; "obj1"; "obj2"])).

(** The world after "alice" took the tree lock on "scene1" in mode [m]. *)
Definition tree_locked_world (m : Lock.Mode) : World Lock.LockTable :=
  mkWorld (snd (Lock.acquire_tree 2 sample_graph "scene1" "alice" m ∅)) [].

Section Samples.
#[local] Existing Instance sample_config.

(** The world right after "alice" acquired "a" and "b" in mode [m]. *)
Definition entered_world (m : Lock.Mode) : World Lock.LockTable :=
  snd (lock_retrying m (ManyIds ["a"; "b"]) "alice" empty_world).

(** The world in which "alice" holds "a" in mode [m], taken through the
    context manager with [auto_unlock=False] and kept. *)
Definition kept_world (m : Lock.Mode) : World Lock.LockTable :=
  snd (ctx_lock m (OneId "a") "alice" false false (ret tt) empty_world).

(** "alice" keeps the write lock on "a" and the block raises [KeyError]. *)
Definition run_with_KeyError : Outcome unit * World Lock.LockTable :=
  ctx_write_lock (OneId "a") "alice" false false (raise sample_KeyError) empty_world.

(** A dry run by "alice" on "a", which she already holds in mode [m]. *)
Definition dry_run_on_held (m : Lock.Mode) : Outcome unit * World Lock.LockTable :=
  ctx_lock m (OneId "a") "alice" false true (ret tt) (kept_world m).

(** The world in which "bob" holds the write lock on "B" and "alice" the one
    on "C", each taken through [ctx_write_lock] and kept; "A" is free. *)
Definition batch_world : World Lock.LockTable :=
  snd (ctx_write_lock (OneId "C") "alice" false false (ret tt)
    (snd (ctx_write_lock (OneId "B") "bob" false false (ret tt) empty_world))).

End Samples.

(** ** The rest of helpers.py *)

(** The class [Arcor2Exception] comes from [arcor2.exceptions]; what it
    derives from is declared there, outside [helpers.py], and is taken as
    given. *)
Class ExceptionsPkg := {
  Arcor2Exception_bases : list string
}.

(** [Arcor2Exception(msg)] *)
Definition Arcor2Exception `{!ExceptionsPkg} (msg : string) : PyExc :=
  mkExc "Arcor2Exception" Arcor2Exception_bases msg.

(** [unique_name(name, existing_names)], a plain function: it returns [None]
    or raises.  [not name] holds of the empty string only. *)
Definition unique_name `{!ExceptionsPkg} (name : string)
    (existing_names : gset string) : Outcome unit :=
  if decide (name = "") then Raised (Arcor2Exception "Name has to be set.")
  else if decide (name ∈ existing_names)
       then Raised (Arcor2Exception "Name already exists.")
       else Returned tt.

(** Attempts by their verdict. *)
Definition is_granted (ev : Event) : bool :=
  match ev with
  | CallWriteLock _ _ ok | CallReadLock _ _ ok => ok
  | _ => false
  end.

Definition is_refused (ev : Event) : bool :=
  match ev with
  | CallWriteLock _ _ ok | CallReadLock _ _ ok => negb ok
  | _ => false
  end.

Definition sample_exceptions : ExceptionsPkg :=
  {| Arcor2Exception_bases := ["Exception"; "BaseException"] |}.

(** * arcor2.nodes.builder: the publishing route

    An embedding of [project_publish] of [src/arcor2/nodes/builder.py].  The
    route is a state-passing function like the coroutines above; its state
    is the disk it writes to and the list of the storage calls it made. *)
Module Builder.

(** What the route uses of the rest of [arcor2]: the data classes of
    [arcor2.data] by the attributes and methods the route touches, the
    functions of [arcor2.persistent_storage] and of [arcor2.source], and
    [camel_case_to_snake_case].  All are declared outside [builder.py].  A
    call that may raise yields an [Outcome]; the storage answers the same
    question the same way throughout one request. *)
Class Arcor2 := {
  Project : Type;
  Scene : Type;
  SceneObject : Type;
  SceneService : Type;
  ObjectType : Type;
  ServiceType : Type;
  MetaModel : Type;
  ModelType : Type;
  Model : Type;
  TypeNames : Type;
  project_scene_id : Project → string;
  project_has_logic : Project → bool;
  project_to_json : Project → string;
  scene_objects : Scene → list SceneObject;
  scene_services : Scene → list SceneService;
  scene_to_json : Scene → string;
  scene_object_type : SceneObject → string;
  scene_service_type : SceneService → string;
  object_type_id : ObjectType → string;
  object_type_source : ObjectType → string;
  object_type_model : ObjectType → option MetaModel;
  metamodel_id : MetaModel → string;
  metamodel_type : MetaModel → ModelType;
  service_type_id : ServiceType → string;
  service_type_source : ServiceType → string;
  object_model_to_json : ModelType → Model → string;
  get_project : string → Outcome Project;
  get_scene : string → Outcome Scene;
  get_object_type : string → Outcome ObjectType;
  get_model : string → ModelType → Outcome Model;
  get_service_type : string → Outcome ServiceType;
  program_src : Project → Scene → TypeNames → bool → Outcome string;
  built_in_types_names : Outcome TypeNames;
  derived_resources_class : Project → Outcome string;
  global_actions_class : Project → Outcome string;
  camel_case_to_snake_case : string → string;
  tmpdirname : string
}.

(** The calls on [arcor2.persistent_storage], as an observer of the storage
    sees them. *)
Inductive StorageCall :=
  | GetProject (id : string)
  | GetScene (id : string)
  | GetObjectType (id : string)
  | GetModel (id : string)
  | GetServiceType (id : string).

Definition is_get_model (c : StorageCall) : bool :=
  match c with
  | GetModel _ => true
  | _ => false
  end.

(** The disk: directories made, text files by path, zip archives by path
    (each the files it packs), and the storage calls so far.  Making a
    directory and writing a file are taken to succeed, as they do in a
    temporary directory just made. *)
Record Disk := mkDisk {
  dirs : gset string;
  files : gmap string string;
  archives : gmap string (gmap string string);
  storage_calls : list StorageCall
}.

(** What the route hands back to Flask: [return str(e), status] or the
    result of [send_file]. *)
Inductive Response :=
  | TextResponse (body : string) (status : nat)
  | FileResponse (path : string) (content : gmap string string).

(** [s.endswith("/")] *)
Fixpoint ends_with_slash (s : string) : bool :=
  match s with
  | EmptyString => false
  | String c EmptyString => bool_decide (s = "/")
  | String _ rest => ends_with_slash rest
  end.

(** [os.path.join(a, b)] of [posixpath], for two components: an absolute
    [b] replaces [a]; otherwise [b] is appended, after a separator unless
    [a] is empty or ends in one. *)
Definition path_join (a b : string) : string :=
  if String.prefix "/" b then b
  else if bool_decide (a = "") || ends_with_slash a then a +:+ b
  else a +:+ "/" +:+ b.

Section Route.
Context `{!Arcor2}.

Definition on_disk (f : Disk → Disk) : Async Disk unit :=
  λ w, (Returned tt, mkWorld (f (table w)) (trace w)).

(** A call on the storage: noted, then answered. *)
Definition ps {A} (c : StorageCall) (answer : Outcome A) : Async Disk A :=
  λ w, (answer,
        mkWorld (mkDisk (dirs (table w)) (files (table w)) (archives (table w))
                   (storage_calls (table w) ++ [c]))
                (trace w)).

(** The value of an expression that may raise and touches nothing. *)
Definition eval {A} (value : Outcome A) : Async Disk A := λ w, (value, w).

(** [os.makedirs(path)] *)
Definition makedirs (path : string) : Async Disk unit :=
  on_disk (λ d, mkDisk ({[path]} ∪ dirs d) (files d) (archives d) (storage_calls d)).

(** [open(path, "w")]: the file is there and empty. *)
Definition open_w (path : string) : Async Disk unit :=
  on_disk (λ d, mkDisk (dirs d) (<[path := ""]> (files d)) (archives d)
                  (storage_calls d)).

(** [f.write(text)] on a file just opened for writing. *)
Definition write (path text : string) : Async Disk unit :=
  on_disk (λ d, mkDisk (dirs d) (<[path := text]> (files d)) (archives d)
                  (storage_calls d)).

(** [with open(path, "w") as f: f.write(text)], where the file is opened
    before [text] is worked out. *)
Definition write_file (path : string) (text : Outcome string) : Async Disk unit :=
  open_w path ;;
  t ← eval text;
  write path t.

(** A [for] loop that carries a value from one round to the next. *)
Fixpoint for_each {A S : Type} (body : S → A → Async Disk S) (l : list A) (s : S)
    : Async Disk S :=
  match l with
  | [] => ret s
  | x :: rest => s' ← body s x; for_each body rest s'
  end.

(** One round of [for scene_obj in scene.objects], carrying
    [obj_types_with_models]. *)
Definition publish_object (data_path ot_path : string)
    (obj_types_with_models : gset string) (scene_obj : SceneObject)
    : Async Disk (gset string) :=
  obj_type ← ps (GetObjectType (scene_object_type scene_obj))
                (get_object_type (scene_object_type scene_obj));
  seen ←
    match object_type_model obj_type with
    | Some meta =>
        if decide (object_type_id obj_type ∈ obj_types_with_models)
        then ret obj_types_with_models
        else
          model ← ps (GetModel (metamodel_id meta))
                     (get_model (metamodel_id meta) (metamodel_type meta));
          write_file
            (path_join data_path
               (camel_case_to_snake_case (object_type_id obj_type) +:+ ".json"))
            (Returned (object_model_to_json (metamodel_type meta) model)) ;;
          ret ({[object_type_id obj_type]} ∪ obj_types_with_models)
    | None => ret obj_types_with_models
    end;
  write_file
    (path_join ot_path (camel_case_to_snake_case (object_type_id obj_type)) +:+ ".py")
    (Returned (object_type_source obj_type)) ;;
  ret seen.

(** One round of [for scene_srv in scene.services]. *)
Definition publish_service (srv_path : string) (_ : unit) (scene_srv : SceneService)
    : Async Disk unit :=
  srv ← ps (GetServiceType (scene_service_type scene_srv))
           (get_service_type (scene_service_type scene_srv));
  write_file
    (path_join srv_path (camel_case_to_snake_case (service_type_id srv)) +:+ ".py")
    (Returned (service_type_source srv)).

(** The body of the first [try]: everything is fetched from the storage and
    written out.  It hands on what the rest of the route uses. *)
Definition gather (project_id : string) : Async Disk (Project * Scene * string) :=
  project ← ps (GetProject project_id) (get_project project_id);
  scene ← ps (GetScene (project_scene_id project)) (get_scene (project_scene_id project));
  let project_dir := path_join tmpdirname "arcor2_project" in
  let data_path := path_join project_dir "data" in
  let ot_path := path_join project_dir "object_types" in
  let srv_path := path_join project_dir "services" in
  makedirs data_path ;;
  makedirs ot_path ;;
  makedirs srv_path ;;
  open_w (path_join ot_path "__init__.py") ;;
  open_w (path_join srv_path "__init__.py") ;;
  write_file (path_join data_path "project.json") (Returned (project_to_json project)) ;;
  write_file (path_join data_path "scene.json") (Returned (scene_to_json scene)) ;;
  for_each (publish_object data_path ot_path) (scene_objects scene) ∅ ;;
  for_each (publish_service srv_path) (scene_services scene) tt ;;
  ret (project, scene, project_dir).

(** [program_src(project, scene, built_in_types_names(),
    project.has_logic)], the arguments worked out first. *)
Definition script_source (project : Project) (scene : Scene) : Outcome string :=
  match built_in_types_names with
  | Returned names => program_src project scene names (project_has_logic project)
  | Raised e => Raised e
  end.

(** The body of the second [try]: the three generated sources. *)
Definition generate (project : Project) (scene : Scene) (project_dir : string)
    : Async Disk unit :=
  write_file (path_join project_dir "script.py") (script_source project scene) ;;
  write_file (path_join project_dir "resources.py") (derived_resources_class project) ;;
  write_file (path_join project_dir "actions.py") (global_actions_class project).

(** [shutil.make_archive(base_name, "zip", root_dir)]: a zip next to
    [base_name] packing the files below [root_dir]. *)
Definition make_archive (base_name root_dir : string) : Async Disk unit :=
  on_disk (λ d,
    mkDisk (dirs d) (files d)
      (<[base_name +:+ ".zip" :=
           filter (λ entry, String.prefix (root_dir +:+ "/") (fst entry) = true) (files d)]>
         (archives d))
      (storage_calls d)).

(** [send_file(path)] *)
Definition send_file (path : string) : Async Disk Response :=
  λ w, match archives (table w) !! path with
       | Some content => (Returned (FileResponse path content), w)
       | None => (Raised (mkExc "FileNotFoundError" ["OSError"; "Exception"; "BaseException"] path), w)
       end.

(** [project_publish(project_id)], inside [with tempfile.TemporaryDirectory()
    as tmpdirname].  A [return] from an [except] clause ends the route with
    that response.  The world it ends in is the disk as the route leaves
    it, before the [with] statement removes the temporary directory. *)
Definition project_publish (project_id : string) : Async Disk Response :=
  gathered ←
    try_except (got ← gather project_id; ret (inl got))
      "PersistentStorageException"
      (λ e, ret (inr (TextResponse (exc_msg e) 404)));
  match gathered with
  | inr response => ret response
  | inl (project, scene, project_dir) =>
      generated ←
        try_except (generate project scene project_dir ;; ret None)
          "SourceException"
          (λ e, ret (Some (TextResponse (exc_msg e) 501)));
      match generated with
      | Some response => ret response
      | None =>
          let archive_path := path_join tmpdirname "arcor2_project" in
          make_archive archive_path project_dir ;;
          send_file (archive_path +:+ ".zip")
      end
  end.
End Route.

Section Vocabulary.
Context `{!Arcor2}.

(** The storage has the project, its scene, the type of every object of
    the scene with the model that type names, and the type of every service
    of the scene. *)
Definition found_all (project_id : string) (project : Project) (scene : Scene) : Prop :=
  get_project project_id = Returned project
  ∧ get_scene (project_scene_id project) = Returned scene
  ∧ (∀ o, o ∈ scene_objects scene →
       ∃ obj_type, get_object_type (scene_object_type o) = Returned obj_type
         ∧ ∀ meta, object_type_model obj_type = Some meta →
             ∃ model, get_model (metamodel_id meta) (metamodel_type meta) = Returned model)
  ∧ (∀ s, s ∈ scene_services scene →
       ∃ srv, get_service_type (scene_service_type s) = Returned srv).



(** The first of the three generators to fail, if any, fails with [e]. *)
Definition generation_fails_with (project : Project) (scene : Scene) (e : PyExc) : Prop :=
  script_source project scene = Raised e
  ∨ ((∃ s1, script_source project scene = Returned s1)
     ∧ (derived_resources_class project = Raised e
        ∨ ((∃ s2, derived_resources_class project = Returned s2)
           ∧ global_actions_class project = Raised e))).

(** The number of model fetches among storage calls. *)
Definition model_fetches (calls : list StorageCall) : nat :=
  length (filter (λ c, is_get_model c = true) calls).
End Vocabulary.

(** A small storage for the worked examples: project "p1" with scene "s1",
    which has two boxes and a robot as objects and a camera as service; the
    box type has a model.  Everything else is not found. *)
Definition sample_not_found (id : string) : PyExc :=
  mkExc "PersistentStorageException" ["Arcor2Exception"; "Exception"; "BaseException"] id.

Definition sample_arcor2 : Arcor2 := {|
  Project := string;
  Scene := list string * list string;
  SceneObject := string;
  SceneService := string;
  ObjectType := string * option string;
  ServiceType := string;
  MetaModel := string;
  ModelType := unit;
  Model := string;
  TypeNames := unit;
  project_scene_id := λ p, p;
  project_has_logic := λ _, true;
  project_to_json := λ p, "{project}";
  scene_objects := fst;
  scene_services := snd;
  scene_to_json := λ _, "{scene}";
  scene_object_type := λ o, o;
  scene_service_type := λ s, s;
  object_type_id := fst;
  object_type_source := λ ot, "class " +:+ fst ot;
  object_type_model := snd;
  metamodel_id := λ m, m;
  metamodel_type := λ _, tt;
  service_type_id := λ s, s;
  service_type_source := λ s, "class " +:+ s;
  object_model_to_json := λ _ m, m;
  get_project := λ id,
    if decide (id = "p1") then Returned "s1" else Raised (sample_not_found id);
  get_scene := λ id,
    if decide (id = "s1") then Returned (["Box"; "Box"; "Robot"], ["Camera"])
    else Raised (sample_not_found id);
  get_object_type := λ id,
    if decide (id = "Box") then Returned ("Box", Some "box_model")
    else if decide (id = "Robot") then Returned ("Robot", None)
    else Raised (sample_not_found id);
  get_model := λ id _,
    if decide (id = "box_model") then Returned "mesh" else Raised (sample_not_found id);
  get_service_type := λ id,
    if decide (id = "Camera") then Returned "Camera" else Raised (sample_not_found id);
  program_src := λ _ _ _ _, Returned "script";
  built_in_types_names := Returned tt;
  derived_resources_class := λ _, Returned "resources";
  global_actions_class := λ _, Returned "actions";
  camel_case_to_snake_case := λ s, s;
  tmpdirname := "/tmp/tmpq1"
|}.

(** The same storage with a script generator that rejects the project. *)
Definition sample_invalid : Arcor2 := {|
  Project := string;
  Scene := list string * list string;
  SceneObject := string;
  SceneService := string;
  ObjectType := string * option string;
  ServiceType := string;
  MetaModel := string;
  ModelType := unit;
  Model := string;
  TypeNames := unit;
  project_scene_id := project_scene_id (Arcor2 := sample_arcor2);
  project_has_logic := project_has_logic (Arcor2 := sample_arcor2);
  project_to_json := project_to_json (Arcor2 := sample_arcor2);
  scene_objects := scene_objects (Arcor2 := sample_arcor2);
  scene_services := scene_services (Arcor2 := sample_arcor2);
  scene_to_json := scene_to_json (Arcor2 := sample_arcor2);
  scene_object_type := scene_object_type (Arcor2 := sample_arcor2);
  scene_service_type := scene_service_type (Arcor2 := sample_arcor2);
  object_type_id := object_type_id (Arcor2 := sample_arcor2);
  object_type_source := object_type_source (Arcor2 := sample_arcor2);
  object_type_model := object_type_model (Arcor2 := sample_arcor2);
  metamodel_id := metamodel_id (Arcor2 := sample_arcor2);
  metamodel_type := metamodel_type (Arcor2 := sample_arcor2);
  service_type_id := service_type_id (Arcor2 := sample_arcor2);
  service_type_source := service_type_source (Arcor2 := sample_arcor2);
  object_model_to_json := object_model_to_json (Arcor2 := sample_arcor2);
  get_project := get_project (Arcor2 := sample_arcor2);
  get_scene := get_scene (Arcor2 := sample_arcor2);
  get_object_type := get_object_type (Arcor2 := sample_arcor2);
  get_model := get_model (Arcor2 := sample_arcor2);
  get_service_type := get_service_type (Arcor2 := sample_arcor2);
  program_src := λ _ _ _ _,
    Raised (mkExc "SourceException" ["Arcor2Exception"; "Exception"; "BaseException"]
              "Invalid logic.");
  built_in_types_names := Returned tt;
  derived_resources_class := λ _, Returned "resources";
  global_actions_class := λ _, Returned "actions";
  camel_case_to_snake_case := λ s, s;
  tmpdirname := "/tmp/tmpq1"
|}.

(** A disk with nothing on it and no storage call made. *)
Definition blank : World Disk := mkWorld (mkDisk ∅ ∅ ∅ []) [].

(** The project and the scene the sample storage has. *)
Definition sample_project : Project (Arcor2 := sample_arcor2) := "s1".
Definition sample_scene : Scene (Arcor2 := sample_arcor2) :=
  (["Box"; "Box"; "Robot"], ["Camera"]).

(** What the rejecting generator raises. *)
Definition sample_SourceException : PyExc :=
  mkExc "SourceException" ["Arcor2Exception"; "Exception"; "BaseException"]
    "Invalid logic.".

End Builder.

(** * Properties *)

(** ** [make_name_unique] *)

Example make_name_unique_ex1 :
  make_name_unique 5 "box" {[ "box"; "box_1"; "cube" ]} = Some "box_2".
Proof. vm_compute. reflexivity. Qed.

Lemma suffixed_inj (orig_name : string) : Inj (=) (=) (suffixed orig_name).
Proof.
  intros c c' E. unfold suffixed in E.
  apply (inj (String.app orig_name)) in E.
  apply (inj (String.app "_")) in E.
  by apply (inj pretty) in E.
Qed.

Lemma suffixed_neq_orig (orig_name : string) (cnt : nat) :
  suffixed orig_name cnt ≠ orig_name.
Proof.
  unfold suffixed. induction orig_name as [|a s IH]; simpl.
  - discriminate.
  - intros E. injection E as E. by apply IH.
Qed.

(** The loop ends within [size pending] runs of its body as soon as
    [pending] holds every member of [names] that the loop can still meet:
    the name under test and the candidates numbered [cnt] and up. *)
Lemma make_name_unique_loop_ends (orig_name : string) (names : gset string) :
  ∀ (fuel : nat) (pending : gset string) (name : string) (cnt : nat),
    size pending ≤ fuel →
    (∀ x, x ∈ names → (x = name ∨ ∃ c, cnt ≤ c ∧ x = suffixed orig_name c) → x ∈ pending) →
    (∀ c, cnt ≤ c → suffixed orig_name c ≠ name) →
    ∃ r, make_name_unique_loop fuel orig_name names name cnt = Some r
         ∧ (r ∉ names)
         ∧ (name ∉ names → r = name).
Proof.
  induction fuel as [|fuel IH]; intros pending name cnt Hsz Hpend Hnew; simpl.
  - destruct (decide (name ∈ names)) as [Hin|Hout]; [|by eauto].
    apply Nat.le_0_r, size_empty_iff in Hsz.
    specialize (Hpend name Hin (or_introl eq_refl)). set_solver.
  - destruct (decide (name ∈ names)) as [Hin|Hout]; [|by eauto].
    assert (name ∈ pending) as Hp by (apply Hpend; auto).
    destruct (IH (pending ∖ {[name]}) (suffixed orig_name cnt) (S cnt))
      as (r & Hr & Hfresh & _).
    + assert (size pending ≠ 0) by (apply size_non_empty_iff; set_solver).
      rewrite size_difference, size_singleton by set_solver. lia.
    + intros x Hx Hcand. apply elem_of_difference. split.
      * apply Hpend; [done|]. right.
        destruct Hcand as [->|(c & Hc & ->)]; [exists cnt|exists c]; split; auto; lia.
      * rewrite elem_of_singleton.
        destruct Hcand as [->|(c & Hc & ->)]; apply Hnew; lia.
    + intros c Hc E. apply suffixed_inj in E. lia.
    + exists r. split; [done|]. split; [done|]. intros Hout. done.
Qed.

(** C10. For every original name and every finite set of names,
    [make_name_unique] terminates: its loop body runs at most [size names]
    times, so any larger bound on the iterations yields the same name.  The
    name returned is not a member of the set, and it is the original name
    when that one is not in the set. *)
Theorem make_name_unique_terminates_fresh (orig_name : string) (names : gset string) :
  ∃ name,
    (∀ fuel, size names ≤ fuel → make_name_unique fuel orig_name names = Some name)
    ∧ (name ∉ names)
    ∧ (orig_name ∉ names → name = orig_name).
Proof.
  destruct (make_name_unique_loop_ends orig_name names (size names) names orig_name 1)
    as (r & Hr & Hfresh & Hsame); [done|auto|intros; apply suffixed_neq_orig|].
  exists r. split; [|done].
  intros fuel Hfuel.
  destruct (make_name_unique_loop_ends orig_name names fuel names orig_name 1)
    as (r' & Hr' & _ & _); [done|auto|intros; apply suffixed_neq_orig|].
  unfold make_name_unique. rewrite Hr'. f_equal.
  clear Hfresh Hsame. revert Hr Hr'. generalize orig_name at 2 4 as name. generalize 1 as cnt.
  revert fuel Hfuel. generalize (size names) as n.
  induction n as [|n IH]; intros [|fuel] Hfuel cnt name; simpl;
    destruct (decide (name ∈ names)); try congruence; try lia.
  apply IH. lia.
Qed.

(** ** The control flow of the context managers, for any lock package *)

Section Wrappers.
Context {Table : Type} `{!LockPkg Table}.

Lemma ctx_write_lock_run obj_ids owner auto_unlock dry_run body w w1 :
  write_lock_retrying obj_ids owner w = (Returned tt, w1) →
  ctx_write_lock obj_ids owner auto_unlock dry_run body w =
    (fst (body w1),
     if releases auto_unlock dry_run (fst (body w1))
     then write_unlocked obj_ids owner (snd (body w1))
     else snd (body w1)).
Proof.
  intros Hacq. unfold ctx_write_lock, bind at 1. rewrite Hacq.
  unfold try_finally, try_except, releases.
  destruct (body w1) as [[[]|e] w2]; simpl.
  - destruct dry_run, auto_unlock; reflexivity.
  - destruct (isinstance e "Arcor2Exception");
      destruct dry_run, auto_unlock; reflexivity.
Qed.

Lemma ctx_read_lock_run obj_ids owner auto_unlock dry_run body w w1 :
  read_lock_retrying obj_ids owner w = (Returned tt, w1) →
  ctx_read_lock obj_ids owner auto_unlock dry_run body w =
    (fst (body w1),
     if releases auto_unlock dry_run (fst (body w1))
     then read_unlocked obj_ids owner (snd (body w1))
     else snd (body w1)).
Proof.
  intros Hacq. unfold ctx_read_lock, bind at 1. rewrite Hacq.
  unfold try_finally, try_except, releases.
  destruct (body w1) as [[[]|e] w2]; simpl.
  - destruct dry_run, auto_unlock; reflexivity.
  - destruct (isinstance e "Arcor2Exception");
      destruct dry_run, auto_unlock; reflexivity.
Qed.

(** When the acquisition fails for good, the block never runs. *)
Lemma ctx_write_lock_not_entered obj_ids owner auto_unlock dry_run body w e w1 :
  write_lock_retrying obj_ids owner w = (Raised e, w1) →
  ctx_write_lock obj_ids owner auto_unlock dry_run body w = (Raised e, w1).
Proof. intros Hacq. unfold ctx_write_lock, bind. by rewrite Hacq. Qed.

Lemma ctx_read_lock_not_entered obj_ids owner auto_unlock dry_run body w e w1 :
  read_lock_retrying obj_ids owner w = (Raised e, w1) →
  ctx_read_lock obj_ids owner auto_unlock dry_run body w = (Raised e, w1).
Proof. intros Hacq. unfold ctx_read_lock, bind. by rewrite Hacq. Qed.

Lemma retry_loop_exhausted {A} (f : Async Table A) exc delay attempt e t :
  isinstance e exc = true →
  (∀ tr, f (mkWorld t tr) = (Raised e, mkWorld t (tr ++ [attempt]))) →
  ∀ more tr,
    retry_loop more exc delay f (mkWorld t tr) =
      (Raised e, mkWorld t (tr ++ failed_attempts more delay attempt)).
Proof.
  intros Hexc Hf. induction more as [|more IH]; intros tr; simpl; rewrite Hf, Hexc.
  - reflexivity.
  - unfold bind, sleep, log. simpl. rewrite IH. unfold failed_attempts.
    simpl. by rewrite <- !app_assoc.
Qed.

Lemma isinstance_own_class cls bases msg : isinstance (mkExc cls bases msg) cls = true.
Proof. unfold isinstance. apply bool_decide_eq_true. simpl. left. Qed.

Lemma write_lock_retrying_exhausted obj_ids owner t tr :
  write_lock obj_ids owner t = (false, t) →
  write_lock_retrying obj_ids owner (mkWorld t tr) =
    (Raised (CannotLock LOCK_FAIL),
     mkWorld t (tr ++ failed_attempts (_lock_retries - 1) _retry_wait
                        (CallWriteLock obj_ids owner false))).
Proof.
  intros Hfail. unfold write_lock_retrying, retry.
  apply retry_loop_exhausted; [apply isinstance_own_class|].
  intros tr'. unfold bind, await_write_lock. simpl. by rewrite Hfail.
Qed.

Lemma read_lock_retrying_exhausted obj_ids owner t tr :
  read_lock obj_ids owner t = (false, t) →
  read_lock_retrying obj_ids owner (mkWorld t tr) =
    (Raised (CannotLock LOCK_FAIL),
     mkWorld t (tr ++ failed_attempts (_lock_retries - 1) _retry_wait
                        (CallReadLock obj_ids owner false))).
Proof.
  intros Hfail. unfold read_lock_retrying, retry.
  apply retry_loop_exhausted; [apply isinstance_own_class|].
  intros tr'. unfold bind, await_read_lock. simpl. by rewrite Hfail.
Qed.

(** An attempt that succeeds ends the loop at once. *)
Lemma write_lock_retrying_granted obj_ids owner t t' tr :
  write_lock obj_ids owner t = (true, t') →
  write_lock_retrying obj_ids owner (mkWorld t tr) =
    (Returned tt, mkWorld t' (tr ++ [CallWriteLock obj_ids owner true])).
Proof.
  intros Hok. unfold write_lock_retrying, retry.
  destruct (_lock_retries - 1); simpl;
    unfold bind, await_write_lock; simpl; by rewrite Hok.
Qed.

Lemma read_lock_retrying_granted obj_ids owner t t' tr :
  read_lock obj_ids owner t = (true, t') →
  read_lock_retrying obj_ids owner (mkWorld t tr) =
    (Returned tt, mkWorld t' (tr ++ [CallReadLock obj_ids owner true])).
Proof.
  intros Hok. unfold read_lock_retrying, retry.
  destruct (_lock_retries - 1); simpl;
    unfold bind, await_read_lock; simpl; by rewrite Hok.
Qed.

Lemma failed_attempts_count more delay ev :
  is_attempt ev = true →
  count is_attempt (failed_attempts more delay ev) = S more
  ∧ count is_sleep (failed_attempts more delay ev) = more
  ∧ count is_release (failed_attempts more delay ev) = 0.
Proof.
  intros Hatt. assert (is_sleep ev = false ∧ is_release ev = false) as [Hs Hr]
    by (destruct ev; done).
  unfold count, failed_attempts.
  induction more as [|more (IH1 & IH2 & IH3)].
  - simpl. rewrite !filter_cons, Hatt, Hs, Hr. done.
  - rewrite !filter_cons, Hatt, Hs, Hr in *. simpl in *.
    rewrite !filter_cons, Hatt, Hs, Hr. simpl. repeat split; lia.
Qed.

Lemma ctx_lock_run m obj_ids owner auto_unlock dry_run body w w1 :
  lock_retrying m obj_ids owner w = (Returned tt, w1) →
  ctx_lock m obj_ids owner auto_unlock dry_run body w =
    (fst (body w1),
     if releases auto_unlock dry_run (fst (body w1))
     then unlocked m obj_ids owner (snd (body w1))
     else snd (body w1)).
Proof.
  destruct m; [apply ctx_read_lock_run|apply ctx_write_lock_run].
Qed.

Lemma ctx_lock_not_entered m obj_ids owner auto_unlock dry_run body w e w1 :
  lock_retrying m obj_ids owner w = (Raised e, w1) →
  ctx_lock m obj_ids owner auto_unlock dry_run body w = (Raised e, w1).
Proof.
  destruct m; [apply ctx_read_lock_not_entered|apply ctx_write_lock_not_entered].
Qed.
End Wrappers.

(** ** The lock table *)

Import Lock.

Lemma joined_idem root owner m entry :
  joined root owner m (Some (joined root owner m entry)) = joined root owner m entry.
Proof.
  destruct entry as [r|]; simpl; f_equal.
  - by rewrite (assoc_L (∪)), union_idemp_L.
  - by rewrite union_idemp_L.
Qed.

Lemma hold_joined root owner m (t : LockTable) id :
  hold root owner m t id = <[id := joined root owner m (t !! id)]> t.
Proof. unfold hold, joined. by destruct (t !! id). Qed.

Lemma lookup_holds root owner m ids : ∀ (t : LockTable) id,
  foldl (hold root owner m) t ids !! id =
    if decide (id ∈ ids) then Some (joined root owner m (t !! id)) else t !! id.
Proof.
  induction ids as [|x ids IH]; intros t id; cbn [foldl].
  - case_decide as Hin; [by apply elem_of_nil in Hin|done].
  - rewrite IH, hold_joined. destruct (decide (x = id)) as [->|Hne].
    + rewrite lookup_insert_eq, joined_idem.
      repeat case_decide; try done; exfalso; set_solver.
    + rewrite lookup_insert_ne by done.
      repeat case_decide; try done; exfalso; set_solver.
Qed.

Lemma dropped_idem owner m entry :
  dropped owner m (dropped owner m entry) = dropped owner m entry.
Proof.
  destruct entry as [r|]; simpl; [|done].
  destruct (bool_decide (mode r = m ∧ owner ∈ holders r)) eqn:E; simpl.
  - destruct (bool_decide (holders r ∖ {[owner]} = ∅)); simpl; [done|].
    rewrite bool_decide_eq_false_2; [done|set_solver].
  - by rewrite E.
Qed.

Lemma lookup_release_one owner m (t : LockTable) x id :
  release_one owner m t x !! id =
    if decide (x = id) then dropped owner m (t !! id) else t !! id.
Proof.
  unfold release_one, dropped. destruct (decide (x = id)) as [->|Hne].
  - destruct (t !! id) as [r|] eqn:E; [|done].
    destruct (bool_decide (mode r = m ∧ owner ∈ holders r)); [|done].
    destruct (bool_decide (holders r ∖ {[owner]} = ∅)).
    + apply lookup_delete_eq.
    + apply lookup_insert_eq.
  - destruct (t !! x) as [r|]; [|done].
    destruct (bool_decide (mode r = m ∧ owner ∈ holders r)); [|done].
    destruct (bool_decide (holders r ∖ {[owner]} = ∅)).
    + by apply lookup_delete_ne.
    + by apply lookup_insert_ne.
Qed.

Lemma lookup_release owner m ids : ∀ (t : LockTable) id,
  release ids owner m t !! id =
    if decide (id ∈ ids) then dropped owner m (t !! id) else t !! id.
Proof.
  unfold release. induction ids as [|x ids IH]; intros t id; cbn [foldl].
  - case_decide as Hin; [by apply elem_of_nil in Hin|done].
  - rewrite IH, lookup_release_one. destruct (decide (x = id)) as [->|Hne].
    + rewrite dropped_idem. repeat case_decide; try done; exfalso; set_solver.
    + repeat case_decide; try done; exfalso; set_solver.
Qed.

(** No partial effects on failure. *)
Lemma try_acquire_under_refused root ids owner m (t t' : LockTable) :
  try_acquire_under root ids owner m t = (false, t') → t' = t.
Proof.
  unfold try_acquire_under. destruct (forallb _ _); congruence.
Qed.

Lemma try_acquire_under_granted root ids owner m (t t' : LockTable) id :
  try_acquire_under root ids owner m t = (true, t') → id ∈ ids →
  holds t' id owner m.
Proof.
  unfold try_acquire_under. destruct (forallb _ _); [|congruence].
  intros [= <-] Hin. exists (joined root owner m (t !! id)).
  rewrite lookup_holds, decide_True by done.
  split; [done|]. destruct (t !! id); simpl; split; set_solver.
Qed.

Lemma release_not_held ids owner m (t : LockTable) id :
  id ∈ ids → ¬ holds (release ids owner m t) id owner m.
Proof.
  intros Hin (r & Hr & Hm & Ho). rewrite lookup_release, decide_True in Hr by done.
  unfold dropped in Hr. destruct (t !! id) as [r0|]; [|done].
  destruct (bool_decide (mode r0 = m ∧ owner ∈ holders r0)) eqn:E.
  - destruct (bool_decide (holders r0 ∖ {[owner]} = ∅)); [done|].
    injection Hr as <-. simpl in Ho. set_solver.
  - injection Hr as <-. apply bool_decide_eq_false in E. tauto.
Qed.

(** Releasing what was just acquired gives the table back, when the owner
    was not among the holders of any of the ids before. *)
Lemma release_try_acquire ids owner m (t t' : LockTable) :
  well_formed t →
  (∀ id, id ∈ ids → ¬ holds_any t id owner) →
  try_acquire ids owner m t = (true, t') →
  release ids owner m t' = t.
Proof.
  intros Hwf Hfree. unfold try_acquire, try_acquire_under.
  destruct (forallb _ _) eqn:Hcompat; [|congruence]. intros [= <-].
  apply map_eq. intros id. rewrite lookup_release, lookup_holds.
  destruct (decide (id ∈ ids)) as [Hin|]; [|done].
  rewrite forallb_forall in Hcompat.
  specialize (Hcompat id (proj1 (list_elem_of_In _ _) Hin)).
  specialize (Hfree id Hin). unfold compatible, holds_any in *.
  destruct (t !! id) as [r|] eqn:E; simpl.
  - assert (owner ∉ holders r) as Hno by (intros ?; apply Hfree; eauto).
    destruct (Hwf id r E) as [Hne _].
    assert (mode r = Read ∧ m = Read) as [Hr ->].
    { destruct m; [by apply bool_decide_eq_true in Hcompat|].
      apply bool_decide_eq_true in Hcompat. set_solver. }
    rewrite bool_decide_eq_true_2 by (split; [done|set_solver]).
    replace (({[owner]} ∪ holders r) ∖ {[owner]}) with (holders r) by set_solver.
    rewrite bool_decide_eq_false_2 by done. destruct r; simpl in *. by subst.
  - rewrite bool_decide_eq_true_2 by (split; [done|set_solver]).
    rewrite bool_decide_eq_true_2 by set_solver. done.
Qed.

(** ** Exceptions of the block and the assertions, for any lock package *)

Section Propagation.
Context {Table : Type} `{!LockPkg Table}.

(** C4. For every exception raised by the protected block inside
    [ctx_write_lock] or [ctx_read_lock], the context manager ends by raising
    that same exception, unchanged, after the release its policy calls for:
    it neither swallows the exception nor replaces it. *)
Theorem block_exception_reraised_unchanged (m : Mode) (obj_ids : ObjIds)
    (owner : string) (auto_unlock dry_run : bool) (body : Async Table unit)
    (w w1 w2 : World Table) (e : PyExc) :
  lock_retrying m obj_ids owner w = (Returned tt, w1) →
  body w1 = (Raised e, w2) →
  ctx_lock m obj_ids owner auto_unlock dry_run body w =
    (Raised e,
     if releases auto_unlock dry_run (Raised e)
     then unlocked m obj_ids owner w2
     else w2).
Proof.
  intros Hacq Hbody.
  rewrite (ctx_lock_run m obj_ids owner auto_unlock dry_run body w w1 Hacq).
  by rewrite Hbody.
Qed.

(** C7. Whenever the read-lock check fails, [ensure_read_locked] raises a
    [LockingException] whose message is exactly "Object is not write
    locked."; it is the very exception [ensure_write_locked] raises when the
    write-lock check fails. *)
Theorem ensure_read_locked_message (obj_id owner : string) (locked_tree : bool)
    (w : World Table) :
  is_read_locked obj_id owner (table w) = false →
  ensure_read_locked obj_id owner locked_tree w =
    (Raised (LockingException "Object is not write locked."), w)
  ∧ exc_msg (LockingException "Object is not write locked.") = "Object is not write locked."
  ∧ ∀ obj_id' owner' tree w',
      is_write_locked obj_id' owner' tree (table w') = false →
      fst (ensure_write_locked obj_id' owner' tree w') =
      fst (ensure_read_locked obj_id owner locked_tree w).
Proof.
  intros Hno.
  assert (ensure_read_locked obj_id owner locked_tree w =
            (Raised (LockingException "Object is not write locked."), w)) as Hr.
  { unfold ensure_read_locked, bind, await_is_read_locked. by rewrite Hno. }
  split; [done|]. split; [done|].
  intros obj_id' owner' tree w' Hno'. rewrite Hr.
  unfold ensure_write_locked, bind, await_is_write_locked. by rewrite Hno'.
Qed.

(** The flag [locked_tree] has no bearing on what [ensure_read_locked]
    does. *)
Lemma ensure_read_locked_ignores_tree_flag (obj_id owner : string) (w : World Table) :
  ensure_read_locked obj_id owner true w = ensure_read_locked obj_id owner false w.
Proof. reflexivity. Qed.

Lemma ensure_write_locked_run (obj_id owner : string) (locked_tree : bool)
    (w : World Table) :
  ensure_write_locked obj_id owner locked_tree w =
    (if is_write_locked obj_id owner locked_tree (table w)
     then Returned tt
     else Raised (LockingException "Object is not write locked."), w).
Proof.
  unfold ensure_write_locked, bind, await_is_write_locked.
  by destruct (is_write_locked _ _ _ _).
Qed.

Lemma unlocked_among_run (owner : string) (w : World Table) (l : list string) :
  unlocked_among l owner w =
    (Returned (list_to_set
       (filter (λ obj_id, is_write_locked obj_id owner false (table w) = false) l)), w).
Proof.
  induction l as [|x l IH]; [done|].
  cbn [unlocked_among]. unfold bind at 1 2. unfold await_is_write_locked at 1.
  rewrite IH. rewrite filter_cons.
  destruct (is_write_locked x owner false (table w)) eqn:E; unfold ret.
  - by rewrite decide_False by done.
  - by rewrite decide_True by done.
Qed.
End Propagation.

(** ** The helpers over the lock table of the spec *)

Section OverTheTable.
Context {cfg : Config}.

Lemma world_eta (w : World LockTable) : w = mkWorld (table w) (trace w).
Proof. by destruct w. Qed.

Lemma lock_retrying_granted (m : Mode) obj_ids owner (w : World LockTable) t' :
  try_acquire (as_list obj_ids) owner m (table w) = (true, t') →
  lock_retrying m obj_ids owner w =
    (Returned tt, mkWorld t' (trace w ++ [attempt m obj_ids owner true])).
Proof.
  intros Hok. rewrite (world_eta w) at 1. destruct m; simpl.
  - exact (read_lock_retrying_granted obj_ids owner (table w) t' (trace w) Hok).
  - exact (write_lock_retrying_granted obj_ids owner (table w) t' (trace w) Hok).
Qed.

Lemma lock_retrying_refused (m : Mode) obj_ids owner (w : World LockTable) :
  fst (try_acquire (as_list obj_ids) owner m (table w)) = false →
  lock_retrying m obj_ids owner w =
    (Raised (CannotLock lock_fail_message),
     mkWorld (table w)
       (trace w ++ failed_attempts (max_attempts - 1) retry_delay
                     (attempt m obj_ids owner false))).
Proof.
  intros Hno. destruct (try_acquire _ _ _ _) as [ok t'] eqn:E. simpl in Hno. subst ok.
  pose proof (try_acquire_under_refused _ _ _ _ _ _ E) as ->.
  rewrite (world_eta w) at 1. destruct m; simpl.
  - exact (read_lock_retrying_exhausted obj_ids owner (table w) (trace w) E).
  - exact (write_lock_retrying_exhausted obj_ids owner (table w) (trace w) E).
Qed.

(** The retrying acquisition returns only by a granted attempt, and then it
    is the first one. *)
Lemma lock_retrying_returned (m : Mode) obj_ids owner (w w1 : World LockTable) :
  lock_retrying m obj_ids owner w = (Returned tt, w1) →
  try_acquire (as_list obj_ids) owner m (table w) = (true, table w1)
  ∧ trace w1 = trace w ++ [attempt m obj_ids owner true].
Proof.
  intros Hret. destruct (try_acquire (as_list obj_ids) owner m (table w)) as [[] t'] eqn:E.
  - rewrite (lock_retrying_granted _ _ _ _ _ E) in Hret. by injection Hret as <-.
  - rewrite lock_retrying_refused in Hret by (by rewrite E). discriminate.
Qed.

Lemma table_unlocked (m : Mode) obj_ids owner (w : World LockTable) :
  table (unlocked m obj_ids owner w) = release (as_list obj_ids) owner m (table w).
Proof. by destruct m. Qed.

Lemma trace_unlocked (m : Mode) obj_ids owner (w : World LockTable) :
  count is_release (trace (unlocked m obj_ids owner w)) = S (count is_release (trace w)).
Proof.
  unfold count. destruct m; simpl; rewrite filter_app, length_app; simpl; lia.
Qed.
End OverTheTable.

Section ScopedAcquisition.
Context {cfg : Config}.

Lemma released_after_acquired_not_held ids owner m (t t1 : LockTable) id :
  try_acquire ids owner m t = (true, t1) → id ∈ ids →
  ¬ holds_any (release ids owner m t1) id owner.
Proof.
  unfold try_acquire, try_acquire_under. destruct (forallb _ _); [|congruence].
  intros [= <-] Hin (r & Hr & Ho).
  rewrite lookup_release, lookup_holds, !decide_True in Hr by done.
  unfold dropped in Hr.
  assert (mode (joined None owner m (t !! id)) = m ∧
          owner ∈ holders (joined None owner m (t !! id))) as Hj
    by (destruct (t !! id); simpl; split; set_solver).
  rewrite bool_decide_eq_true_2 in Hr by done.
  destruct (bool_decide (holders _ ∖ {[owner]} = ∅)); [done|].
  injection Hr as <-. simpl in Ho. set_solver.
Qed.

(** C1. With [auto_unlock=true] and [dry_run=false], once the lock is
    acquired the context manager calls the unlock method exactly once, on
    the world the block leaves, whether the block returns or raises an
    exception of any class; afterwards the owner holds none of the ids in
    the mode that was locked, and holds them in no mode at all when the
    block left the table as it found it. *)
Theorem auto_unlock_leaves_no_lock (m : Mode) (obj_ids : ObjIds) (owner : string)
    (body : Async LockTable unit) (w w1 : World LockTable) :
  lock_retrying m obj_ids owner w = (Returned tt, w1) →
  ctx_lock m obj_ids owner true false body w =
    (fst (body w1), unlocked m obj_ids owner (snd (body w1)))
  ∧ (∀ id, id ∈ as_list obj_ids →
       ¬ holds (table (snd (ctx_lock m obj_ids owner true false body w))) id owner m)
  ∧ (table (snd (body w1)) = table w1 →
     ∀ id, id ∈ as_list obj_ids →
       ¬ holds_any (table (snd (ctx_lock m obj_ids owner true false body w))) id owner).
Proof.
  intros Hacq.
  rewrite (ctx_lock_run m obj_ids owner true false body w w1 Hacq). simpl.
  split; [done|]. rewrite table_unlocked. split.
  - intros id Hin. by apply release_not_held.
  - intros -> id Hin. apply lock_retrying_returned in Hacq as [Hacq _].
    by apply (released_after_acquired_not_held _ _ _ _ _ _ Hacq).
Qed.

(** C2, as the code has it. With [auto_unlock=false] and [dry_run=false],
    once the lock is acquired the owner holds every id in the mode locked
    when the block starts.  If the block returns, no unlock is called and
    the world is the one the block left.  If the block raises an exception
    that is an instance of [Arcor2Exception], the unlock method is called
    once and the owner holds none of the ids in that mode afterwards.  If it
    raises an exception of any other class, no unlock is called and the
    world is the one the block left. *)
Theorem no_auto_unlock_releases_on_arcor2_exception (m : Mode) (obj_ids : ObjIds)
    (owner : string) (body : Async LockTable unit) (w w1 : World LockTable) :
  lock_retrying m obj_ids owner w = (Returned tt, w1) →
  (∀ id, id ∈ as_list obj_ids → holds (table w1) id owner m)
  ∧ match fst (body w1) with
    | Returned _ =>
        ctx_lock m obj_ids owner false false body w = (Returned tt, snd (body w1))
    | Raised e =>
        if isinstance e "Arcor2Exception" then
          ctx_lock m obj_ids owner false false body w =
            (Raised e, unlocked m obj_ids owner (snd (body w1)))
          ∧ ∀ id, id ∈ as_list obj_ids →
              ¬ holds (table (unlocked m obj_ids owner (snd (body w1)))) id owner m
        else
          ctx_lock m obj_ids owner false false body w = (Raised e, snd (body w1))
    end.
Proof.
  intros Hacq. split.
  - intros id Hin. apply lock_retrying_returned in Hacq as [Hacq _].
    by apply (try_acquire_under_granted _ _ _ _ _ _ _ Hacq).
  - rewrite (ctx_lock_run m obj_ids owner false false body w w1 Hacq).
    destruct (body w1) as [[[]|e] w2]; simpl; [done|].
    unfold releases. simpl.
    destruct (isinstance e "Arcor2Exception"); [|done].
    split; [done|]. intros id Hin. rewrite table_unlocked. by apply release_not_held.
Qed.

(** C3, as the code has it. With [dry_run=true], whatever [auto_unlock] is,
    once the lock is acquired the context manager calls the unlock method
    exactly once, on the world the block leaves, on every way out of the
    block; afterwards the owner holds none of the ids in the mode locked.
    When the owner was not among the holders of any of the ids before entry
    and the block leaves the table as it found it, the table after the
    scoped block is the table before entry. *)
Theorem dry_run_releases_and_restores_fresh (m : Mode) (obj_ids : ObjIds)
    (owner : string) (auto_unlock : bool) (body : Async LockTable unit)
    (w w1 : World LockTable) :
  lock_retrying m obj_ids owner w = (Returned tt, w1) →
  ctx_lock m obj_ids owner auto_unlock true body w =
    (fst (body w1), unlocked m obj_ids owner (snd (body w1)))
  ∧ (∀ id, id ∈ as_list obj_ids →
       ¬ holds (table (snd (ctx_lock m obj_ids owner auto_unlock true body w))) id owner m)
  ∧ (well_formed (table w) →
     (∀ id, id ∈ as_list obj_ids → ¬ holds_any (table w) id owner) →
     table (snd (body w1)) = table w1 →
     table (snd (ctx_lock m obj_ids owner auto_unlock true body w)) = table w).
Proof.
  intros Hacq.
  rewrite (ctx_lock_run m obj_ids owner auto_unlock true body w w1 Hacq). simpl.
  split; [done|]. rewrite table_unlocked. split.
  - intros id Hin. by apply release_not_held.
  - intros Hwf Hfree ->. apply lock_retrying_returned in Hacq as [Hacq _].
    by apply release_try_acquire.
Qed.

(** C5. When the acquisition is refused on the table as it stands, and so
    on every attempt, [ctx_write_lock] and [ctx_read_lock] try it exactly
    [max_attempts] times with a sleep of [retry_delay] between two attempts,
    then raise [CannotLock]; the block is not run, no unlock is called and
    the table is unchanged. *)
Theorem refused_acquisition_raises_CannotLock (m : Mode) (obj_ids : ObjIds)
    (owner : string) (auto_unlock dry_run : bool) (body : Async LockTable unit)
    (w : World LockTable) :
  1 ≤ max_attempts →
  fst (try_acquire (as_list obj_ids) owner m (table w)) = false →
  let tried :=
    failed_attempts (max_attempts - 1) retry_delay (attempt m obj_ids owner false) in
  ctx_lock m obj_ids owner auto_unlock dry_run body w =
    (Raised (CannotLock lock_fail_message), mkWorld (table w) (trace w ++ tried))
  ∧ count is_attempt tried = max_attempts
  ∧ count is_sleep tried = max_attempts - 1
  ∧ count is_release tried = 0
  ∧ exc_class (CannotLock lock_fail_message) = "CannotLock".
Proof.
  intros Hpos Hno tried. split.
  - apply ctx_lock_not_entered. by apply lock_retrying_refused.
  - destruct (failed_attempts_count (max_attempts - 1) retry_delay
                (attempt m obj_ids owner false)) as (Ha & Hs & Hr); [by destruct m|].
    subst tried. rewrite Ha, Hs, Hr. repeat split; lia.
Qed.
End ScopedAcquisition.

Section Queries.
Context {cfg : Config}.



End Queries.

(** ** Worked examples *)

Section Examples.
#[local] Existing Instance sample_config.

(** C2 fails as stated: with [auto_unlock=False] and [dry_run=False], a
    block that raises [KeyError], which is no [Arcor2Exception], leaves
    "alice" holding the write lock on "a"; the exception goes through and
    unlock is never called. *)
Lemma foreign_exception_keeps_the_lock :
  fst run_with_KeyError = Raised sample_KeyError
  ∧ isinstance sample_KeyError "Arcor2Exception" = false
  ∧ is_locked "a" "alice" Write false (table (snd run_with_KeyError)) = true
  ∧ count is_release (trace (snd run_with_KeyError)) = 0.
Proof. vm_compute. repeat split; reflexivity. Qed.

(** C3 fails as stated: "alice" holds "a" before a dry run on "a"; the dry
    run is granted, releases on exit, and she holds "a" no longer: the table
    is not the one before entry.  It is so in either mode. *)
Lemma dry_run_drops_an_earlier_hold :
  (is_locked "a" "alice" Read false (table (kept_world Read)) = true
   ∧ fst (dry_run_on_held Read) = Returned tt
   ∧ is_locked "a" "alice" Read false (table (snd (dry_run_on_held Read))) = false
   ∧ table (snd (dry_run_on_held Read)) ≠ table (kept_world Read))
  ∧ (is_locked "a" "alice" Write false (table (kept_world Write)) = true
     ∧ fst (dry_run_on_held Write) = Returned tt
     ∧ is_locked "a" "alice" Write false (table (snd (dry_run_on_held Write))) = false
     ∧ table (snd (dry_run_on_held Write)) ≠ table (kept_world Write)).
Proof.
  split; (split; [by vm_compute|]; split; [by vm_compute|]; split; [by vm_compute|]).
  - intros H. apply (f_equal (is_locked "a" "alice" Read false)) in H.
    vm_compute in H. discriminate.
  - intros H. apply (f_equal (is_locked "a" "alice" Write false)) in H.
    vm_compute in H. discriminate.
Qed.


(** C9 at the failing input: "alice" holds the tree read lock on "scene1",
    which covers "obj1"; [ensure_read_locked] with [locked_tree=True] raises
    all the same, where [ensure_write_locked] under the tree write lock
    returns. *)
Theorem ensure_read_locked_rejects_tree_lock :
  fst (acquire_tree 2 sample_graph "scene1" "alice" Read ∅) = Granted
  ∧ is_locked "obj1" "alice" Read true (table (tree_locked_world Read)) = true
  ∧ ensure_read_locked "obj1" "alice" true (tree_locked_world Read) =
      (Raised (LockingException "Object is not write locked."), tree_locked_world Read)
  ∧ ensure_write_locked "obj1" "alice" true (tree_locked_world Write) =
      (Returned tt, tree_locked_world Write).
Proof. repeat split; by vm_compute. Qed.
(** The hypotheses of the theorems above are met by concrete runs. *)

Lemma auto_unlock_leaves_no_lock_witness :
  lock_retrying Write (ManyIds ["a"; "b"]) "alice" empty_world =
    (Returned tt, entered_world Write)
  ∧ ctx_lock Write (ManyIds ["a"; "b"]) "alice" true false (raise sample_KeyError)
      empty_world =
      (Raised sample_KeyError,
       unlocked Write (ManyIds ["a"; "b"]) "alice" (entered_world Write))
  ∧ (∀ id, id ∈ ["a"; "b"] →
       ¬ holds (table (snd (ctx_lock Write (ManyIds ["a"; "b"]) "alice" true false
                              (raise sample_KeyError) empty_world))) id "alice" Write).
Proof.
  assert (lock_retrying Write (ManyIds ["a"; "b"]) "alice" empty_world =
            (Returned tt, entered_world Write)) as Hacq by (by vm_compute).
  split; [exact Hacq|].
  destruct (auto_unlock_leaves_no_lock Write (ManyIds ["a"; "b"]) "alice"
              (raise sample_KeyError) empty_world (entered_world Write) Hacq)
    as (Hrun & Hfree & _).
  split; [exact Hrun|exact Hfree].
Defined.

Lemma no_auto_unlock_releases_on_arcor2_exception_witness :
  lock_retrying Read (ManyIds ["a"; "b"]) "alice" empty_world =
    (Returned tt, entered_world Read)
  ∧ (∀ id, id ∈ ["a"; "b"] → holds (table (entered_world Read)) id "alice" Read)
  ∧ ctx_lock Read (ManyIds ["a"; "b"]) "alice" false false
      (raise sample_Arcor2Exception) empty_world =
      (Raised sample_Arcor2Exception,
       unlocked Read (ManyIds ["a"; "b"]) "alice" (entered_world Read)).
Proof.
  assert (lock_retrying Read (ManyIds ["a"; "b"]) "alice" empty_world =
            (Returned tt, entered_world Read)) as Hacq by (by vm_compute).
  split; [exact Hacq|].
  destruct (no_auto_unlock_releases_on_arcor2_exception Read (ManyIds ["a"; "b"])
              "alice" (raise sample_Arcor2Exception) empty_world
              (entered_world Read) Hacq) as (Hheld & Hrun).
  split; [exact Hheld|exact (proj1 Hrun)].
Defined.

Lemma dry_run_releases_and_restores_fresh_witness :
  lock_retrying Write (ManyIds ["a"; "b"]) "alice" empty_world =
    (Returned tt, entered_world Write)
  ∧ well_formed (table empty_world)
  ∧ (∀ id, id ∈ ["a"; "b"] → ¬ holds_any (table empty_world) id "alice")
  ∧ table (snd (ctx_lock Write (ManyIds ["a"; "b"]) "alice" false true (ret tt)
                  empty_world)) = table empty_world.
Proof.
  assert (lock_retrying Write (ManyIds ["a"; "b"]) "alice" empty_world =
            (Returned tt, entered_world Write)) as Hacq by (by vm_compute).
  assert (well_formed (table empty_world)) as Hwf by apply map_Forall_empty.
  assert (∀ id, id ∈ ["a"; "b"] → ¬ holds_any (table empty_world) id "alice") as Hfree
    by (intros id _ (r & Hr & _); discriminate Hr).
  split; [exact Hacq|]. split; [exact Hwf|]. split; [exact Hfree|].
  destruct (dry_run_releases_and_restores_fresh Write (ManyIds ["a"; "b"]) "alice"
              false (ret tt) empty_world (entered_world Write) Hacq)
    as (_ & _ & Hrestored).
  exact (Hrestored Hwf Hfree eq_refl).
Defined.

Lemma block_exception_reraised_unchanged_witness :
  lock_retrying Write (ManyIds ["a"; "b"]) "alice" empty_world =
    (Returned tt, entered_world Write)
  ∧ raise (A := unit) sample_KeyError (entered_world Write) =
      (Raised sample_KeyError, entered_world Write)
  ∧ ctx_lock Write (ManyIds ["a"; "b"]) "alice" false false (raise sample_KeyError)
      empty_world = (Raised sample_KeyError, entered_world Write).
Proof.
  assert (lock_retrying Write (ManyIds ["a"; "b"]) "alice" empty_world =
            (Returned tt, entered_world Write)) as Hacq by (by vm_compute).
  split; [exact Hacq|]. split; [reflexivity|].
  exact (block_exception_reraised_unchanged Write (ManyIds ["a"; "b"]) "alice"
           false false (raise sample_KeyError) empty_world (entered_world Write)
           (entered_world Write) sample_KeyError Hacq eq_refl).
Defined.

Lemma refused_acquisition_raises_CannotLock_witness :
  1 ≤ max_attempts
  ∧ fst (try_acquire (as_list (OneId "B")) "alice" Write (table batch_world)) = false
  ∧ ctx_lock Write (OneId "B") "alice" true false (ret tt) batch_world =
      (Raised (CannotLock "Locking failed."),
       mkWorld (table batch_world)
         (trace batch_world ++
            [CallWriteLock (OneId "B") "alice" false; Sleep 2%N;
             CallWriteLock (OneId "B") "alice" false; Sleep 2%N;
             CallWriteLock (OneId "B") "alice" false])).
Proof.
  assert (1 ≤ max_attempts) as Hpos by (simpl; lia).
  assert (fst (try_acquire (as_list (OneId "B")) "alice" Write (table batch_world))
            = false) as Hno by (by vm_compute).
  split; [exact Hpos|]. split; [exact Hno|].
  exact (proj1 (refused_acquisition_raises_CannotLock Write (OneId "B") "alice"
                  true false (ret tt) batch_world Hpos Hno)).
Defined.

Lemma ensure_read_locked_message_witness :
  is_read_locked "a" "alice" (table empty_world) = false
  ∧ ensure_read_locked "a" "alice" true empty_world =
      (Raised (LockingException "Object is not write locked."), empty_world).
Proof.
  assert (is_read_locked "a" "alice" (table empty_world) = false) as Hno
    by reflexivity.
  split; [exact Hno|].
  exact (proj1 (ensure_read_locked_message "a" "alice" true empty_world Hno)).
Defined.
End Examples.

(** * Further properties of helpers.py *)

(** ** Names *)

Lemma suffixed_nonempty (orig_name : string) (cnt : nat) :
  suffixed orig_name cnt ≠ "".
Proof. unfold suffixed. destruct orig_name; discriminate. Qed.

(** What the loop returns when it returns: the name under test if that one
    is free, otherwise the first free candidate from [cnt] on. *)
Lemma make_name_unique_loop_first_free (orig_name : string) (names : gset string) :
  ∀ (fuel : nat) (name : string) (cnt : nat) (r : string),
    make_name_unique_loop fuel orig_name names name cnt = Some r →
    ((name ∉ names) ∧ r = name)
    ∨ (name ∈ names ∧ ∃ k, cnt ≤ k ∧ r = suffixed orig_name k
         ∧ (suffixed orig_name k ∉ names)
         ∧ ∀ j, cnt ≤ j → j < k → suffixed orig_name j ∈ names).
Proof.
  induction fuel as [|fuel IH]; intros name cnt r; simpl;
    destruct (decide (name ∈ names)) as [Hin|Hout]; try done;
    try (intros [= <-]; by left).
  intros Hr. right. split; [done|].
  destruct (IH _ _ _ Hr) as [[Hfree ->]|(Hin' & k & Hk & -> & Hfree & Hbelow)].
  - exists cnt. repeat split; auto. intros j ? ?. lia.
  - exists k. repeat split; auto; [lia|].
    intros j Hj1 Hj2. destruct (decide (j = cnt)) as [->|]; [done|].
    apply Hbelow; lia.
Qed.

(** X1. [unique_name] returns normally exactly for a non-empty name that is
    not among the existing ones.  The empty name is refused with "Name has
    to be set." even when the empty string is among the existing names; a
    non-empty name already there is refused with "Name already exists.".
    Both errors are [Arcor2Exception]s. *)
Theorem unique_name_outcomes `{!ExceptionsPkg} (name : string)
    (existing_names : gset string) :
  (unique_name name existing_names = Returned tt ↔ name ≠ "" ∧ name ∉ existing_names)
  ∧ (unique_name name existing_names = Raised (Arcor2Exception "Name has to be set.")
     ↔ name = "")
  ∧ (unique_name name existing_names = Raised (Arcor2Exception "Name already exists.")
     ↔ name ≠ "" ∧ name ∈ existing_names)
  ∧ (∀ e, unique_name name existing_names = Raised e →
          isinstance e "Arcor2Exception" = true).
Proof.
  unfold unique_name.
  destruct (decide (name = "")) as [->|Hne];
    [|destruct (decide (name ∈ existing_names)) as [Hin|Hout]];
    repeat split; try done; try (intros [? ?]; done); try (intros [= ?]; done);
    try (intros e [= <-]; apply isinstance_own_class); try tauto.
Qed.

(** X2. The name [make_name_unique] picks passes [unique_name] against the
    same set whenever the original name is not empty. *)
Theorem make_name_unique_passes_unique_name `{!ExceptionsPkg} (orig_name : string)
    (names : gset string) (fuel : nat) :
  orig_name ≠ "" →
  size names ≤ fuel →
  ∃ name, make_name_unique fuel orig_name names = Some name
          ∧ unique_name name names = Returned tt.
Proof.
  intros Hne Hfuel.
  destruct (make_name_unique_loop_ends orig_name names fuel names orig_name 1)
    as (r & Hr & Hfresh & _); [done|auto|intros; apply suffixed_neq_orig|].
  exists r. split; [exact Hr|].
  assert (r ≠ "") as Hr0.
  { destruct (make_name_unique_loop_first_free _ _ _ _ _ _ Hr)
      as [[_ ->]|(_ & k & _ & -> & _)]; [done|apply suffixed_nonempty]. }
  unfold unique_name. by rewrite !decide_False.
Qed.

(** X3. When the original name is taken, [make_name_unique] returns
    [orig_name_k] for the least [k >= 1] whose candidate is free: every
    candidate with a smaller number is in the set. *)
Theorem make_name_unique_least_suffix (orig_name : string) (names : gset string)
    (fuel : nat) :
  orig_name ∈ names →
  size names ≤ fuel →
  ∃ k, 1 ≤ k
       ∧ make_name_unique fuel orig_name names = Some (suffixed orig_name k)
       ∧ (suffixed orig_name k ∉ names)
       ∧ ∀ j, 1 ≤ j → j < k → suffixed orig_name j ∈ names.
Proof.
  intros Hin Hfuel.
  destruct (make_name_unique_loop_ends orig_name names fuel names orig_name 1)
    as (r & Hr & _ & _); [done|auto|intros; apply suffixed_neq_orig|].
  destruct (make_name_unique_loop_first_free _ _ _ _ _ _ Hr)
    as [[Hout _]|(_ & k & Hk & -> & Hfree & Hbelow)]; [done|].
  exists k. by repeat split.
Qed.

(** X4. Two names made in a row from the same original, the first one added
    to the set before the second is made, are different, and neither is in
    the set the first was made for. *)
Theorem make_name_unique_twice_distinct (orig_name : string) (names : gset string)
    (fuel : nat) :
  S (size names) ≤ fuel →
  ∃ first second,
    make_name_unique fuel orig_name names = Some first
    ∧ make_name_unique fuel orig_name ({[first]} ∪ names) = Some second
    ∧ first ≠ second ∧ (first ∉ names) ∧ (second ∉ names).
Proof.
  intros Hfuel.
  destruct (make_name_unique_loop_ends orig_name names fuel names orig_name 1)
    as (r1 & Hr1 & Hfresh1 & _); [lia|auto|intros; apply suffixed_neq_orig|].
  destruct (make_name_unique_loop_ends orig_name ({[r1]} ∪ names) fuel
              ({[r1]} ∪ names) orig_name 1)
    as (r2 & Hr2 & Hfresh2 & _); [|auto|intros; apply suffixed_neq_orig|].
  { rewrite size_union, size_singleton by set_solver. lia. }
  exists r1, r2. repeat split; try done; set_solver.
Qed.

(** ** The context managers, for any lock package *)

Section MoreWrappers.
Context {Table : Type} `{!LockPkg Table}.

Lemma count_app (kind : Event → bool) (tr1 tr2 : list Event) :
  count kind (tr1 ++ tr2) = count kind tr1 + count kind tr2.
Proof. unfold count. by rewrite filter_app, length_app. Qed.

Lemma count_cons (kind : Event → bool) (ev : Event) (tr : list Event) :
  count kind (ev :: tr) = (if kind ev then 1 else 0) + count kind tr.
Proof.
  unfold count. rewrite filter_cons. by destruct (kind ev).
Qed.

(** The decorated coroutine [lock] of either context manager makes one
    attempt and raises [CannotLock] on a refusal. *)
Lemma lock_once (m : Mode) obj_ids owner (w : World Table) :
  ∃ (ok : bool) (t : Table),
    match m with
    | Write => (ok ← await_write_lock obj_ids owner;
                when (negb ok) (raise (CannotLock LOCK_FAIL))) w
    | Read => (ok ← await_read_lock obj_ids owner;
               when (negb ok) (raise (CannotLock LOCK_FAIL))) w
    end =
    (if ok then Returned tt else Raised (CannotLock LOCK_FAIL),
     mkWorld t (trace w ++ [attempt m obj_ids owner ok])).
Proof.
  destruct m; unfold bind, await_read_lock, await_write_lock.
  - destruct (read_lock obj_ids owner (table w)) as [[] t];
      [by exists true, t|by exists false, t].
  - destruct (write_lock obj_ids owner (table w)) as [[] t];
      [by exists true, t|by exists false, t].
Qed.

(** The events a retried acquisition adds: refused attempts, each followed
    by a sleep, then one last attempt, granted if the acquisition returns. *)
Lemma retry_loop_trace (m : Mode) obj_ids owner delay (f : Async Table unit) :
  (∀ w, ∃ (ok : bool) (t : Table), f w = (if ok then Returned tt else Raised (CannotLock LOCK_FAIL),
                       mkWorld t (trace w ++ [attempt m obj_ids owner ok]))) →
  ∀ more w,
    ∃ tr, trace (snd (retry_loop more "CannotLock" delay f w)) = trace w ++ tr
      ∧ count is_release tr = 0
      ∧ count is_sleep tr + 1 = count is_attempt tr
      ∧ count is_attempt tr ≤ S more
      ∧ match fst (retry_loop more "CannotLock" delay f w) with
        | Returned _ =>
            ∃ before, tr = before ++ [attempt m obj_ids owner true]
                      ∧ count is_granted before = 0
        | Raised e =>
            e = CannotLock LOCK_FAIL
            ∧ count is_granted tr = 0
            ∧ count is_attempt tr = S more
        end.
Proof.
  intros Hf.
  assert (∀ ok, is_attempt (attempt m obj_ids owner ok) = true
                ∧ is_sleep (attempt m obj_ids owner ok) = false
                ∧ is_release (attempt m obj_ids owner ok) = false
                ∧ is_granted (attempt m obj_ids owner ok) = ok) as Hev
    by (intros ok; by destruct m).
  induction more as [|more IH]; intros w; simpl;
    destruct (Hf w) as (ok & t & ->); destruct ok; simpl.
  - exists [attempt m obj_ids owner true].
    rewrite !count_cons. destruct (Hev true) as (-> & -> & -> & _).
    do 4 (split; [done|]). by exists [].
  - exists [attempt m obj_ids owner false].
    rewrite !count_cons. destruct (Hev false) as (-> & -> & -> & ->).
    by do 6 (split; [done|]).
  - exists [attempt m obj_ids owner true].
    rewrite !count_cons. destruct (Hev true) as (-> & -> & -> & _).
    do 3 (split; [done|]). split; [unfold count; simpl; lia|]. by exists [].
  - unfold bind at 1 2. simpl.
    remember (mkWorld t ((trace w ++ [attempt m obj_ids owner false])
                           ++ [Sleep delay])) as w' eqn:Hw'.
    assert (trace w' = (trace w ++ [attempt m obj_ids owner false])
                         ++ [Sleep delay]) as Htw by (by subst w').
    clear Hw'. destruct (IH w') as (tr & Htr & Hrel & Hsl & Hle & Hout).
    exists (attempt m obj_ids owner false :: Sleep delay :: tr).
    rewrite Htr, Htw, <- !app_assoc. simpl.
    rewrite !count_cons. destruct (Hev false) as (-> & -> & -> & ->). simpl.
    do 4 (split; [done || lia|]).
    destruct (fst (retry_loop more "CannotLock" delay f _)).
    + destruct Hout as (before & -> & Hnone).
      exists (attempt m obj_ids owner false :: Sleep delay :: before).
      split; [done|]. rewrite !count_cons.
      destruct (Hev false) as (_ & _ & _ & ->). simpl. lia.
    + destruct Hout as (-> & Hnone & Hall). split; [done|]. split; lia.
Qed.

Lemma lock_retrying_trace (m : Mode) obj_ids owner (w : World Table) :
  ∃ tr, trace (snd (lock_retrying m obj_ids owner w)) = trace w ++ tr
    ∧ count is_release tr = 0
    ∧ count is_sleep tr + 1 = count is_attempt tr
    ∧ count is_attempt tr ≤ S (_lock_retries - 1)
    ∧ match fst (lock_retrying m obj_ids owner w) with
      | Returned _ =>
          ∃ before, tr = before ++ [attempt m obj_ids owner true]
                    ∧ count is_granted before = 0
      | Raised e =>
          e = CannotLock LOCK_FAIL
          ∧ count is_granted tr = 0
          ∧ count is_attempt tr = S (_lock_retries - 1)
      end.
Proof.
  destruct m; unfold lock_retrying, read_lock_retrying, write_lock_retrying, retry.
  - apply (retry_loop_trace Read). intros w'. apply (lock_once Read).
  - apply (retry_loop_trace Write). intros w'. apply (lock_once Write).
Qed.


(** X6. When the acquisition of either context manager gives up, the
    exception is [CannotLock(LOCK_FAIL)] and it is what the context manager
    raises; the block is not run, whatever it is, the two knobs play no
    part, and unlock is not called. *)
Theorem failed_acquisition_skips_block (m : Mode) (obj_ids : ObjIds) (owner : string)
    (auto_unlock dry_run : bool) (body : Async Table unit) (w w1 : World Table)
    (e : PyExc) :
  lock_retrying m obj_ids owner w = (Raised e, w1) →
  e = CannotLock LOCK_FAIL
  ∧ ctx_lock m obj_ids owner auto_unlock dry_run body w = (Raised e, w1)
  ∧ count is_release (trace w1) = count is_release (trace w).
Proof.
  intros Hfail.
  destruct (lock_retrying_trace m obj_ids owner w) as (tr & Htr & Hrel & _ & _ & Hout).
  rewrite Hfail in Htr, Hout. simpl in Htr, Hout. destruct Hout as (-> & _).
  split; [done|]. split.
  - destruct m; simpl in *; unfold ctx_read_lock, ctx_write_lock, bind;
      by rewrite Hfail.
  - rewrite Htr, count_app. lia.
Qed.

(** X7. Once the lock is acquired, either context manager calls unlock at
    most once: once when [dry_run] or [auto_unlock] is set or the block
    raised an [Arcor2Exception], not at all otherwise.  The [except] clause
    and the [finally] clause never both release. *)
Theorem unlock_called_at_most_once (m : Mode) (obj_ids : ObjIds) (owner : string)
    (auto_unlock dry_run : bool) (body : Async Table unit) (w w1 : World Table) :
  lock_retrying m obj_ids owner w = (Returned tt, w1) →
  count is_release
    (trace (snd (ctx_lock m obj_ids owner auto_unlock dry_run body w))) =
  count is_release (trace (snd (body w1)))
  + (if releases auto_unlock dry_run (fst (body w1)) then 1 else 0).
Proof.
  intros Hacq.
  assert (ctx_lock m obj_ids owner auto_unlock dry_run body w =
            (fst (body w1),
             if releases auto_unlock dry_run (fst (body w1))
             then unlocked m obj_ids owner (snd (body w1))
             else snd (body w1))) as ->.
  { destruct m; simpl in *;
      [by apply ctx_read_lock_run|by apply ctx_write_lock_run]. }
  simpl. destruct (releases _ _ _); [|lia].
  destruct m; simpl; rewrite count_app; unfold count; simpl; lia.
Qed.

(** X8. [dry_run=True] makes either context manager behave exactly as
    [auto_unlock=True] does: of the four settings of the two knobs, only
    "both false" differs from the rest. *)
Theorem dry_run_same_as_auto_unlock (m : Mode) (obj_ids : ObjIds) (owner : string)
    (body : Async Table unit) (w : World Table) :
  ctx_lock m obj_ids owner false true body w =
    ctx_lock m obj_ids owner true false body w
  ∧ ctx_lock m obj_ids owner true true body w =
      ctx_lock m obj_ids owner true false body w.
Proof.
  destruct m; simpl; unfold ctx_read_lock, ctx_write_lock, bind;
    destruct (read_lock_retrying _ _ _) as [[[]|e] w1] || 
    destruct (write_lock_retrying _ _ _) as [[[]|e] w1];
    try done; unfold try_finally, try_except;
    destruct (body w1) as [[[]|e] w2]; try done;
    destruct (isinstance e "Arcor2Exception"); done.
Qed.

(** X9. [get_unlocked_objects] returns the empty set exactly when the owner
    has every given id write-locked, the empty batch included; the world is
    left as it was. *)
Theorem get_unlocked_objects_empty_iff (obj_ids : ObjIds) (owner : string)
    (w : World Table) :
  get_unlocked_objects obj_ids owner w = (Returned ∅, w) ↔
  ∀ id, id ∈ as_list obj_ids → is_write_locked id owner false (table w) = true.
Proof.
  unfold get_unlocked_objects. rewrite unlocked_among_run. split.
  - intros [= Hempty] id Hin.
    destruct (is_write_locked id owner false (table w)) eqn:E; [done|].
    assert (id ∈ (∅ : gset string)) as Hno; [|set_solver].
    rewrite <- Hempty, elem_of_list_to_set, list_elem_of_filter. done.
  - intros Hall. do 2 f_equal. apply set_eq. intros id.
    rewrite elem_of_list_to_set, list_elem_of_filter. split; [|set_solver].
    intros [Hno Hin]. rewrite (Hall id Hin) in Hno. done.
Qed.

(** X10. The result of [get_unlocked_objects] depends on the ids given as a
    set only: batches with the same members, in any order and with any
    repetition, give the same answer. *)
Theorem get_unlocked_objects_order_irrelevant (l1 l2 : list string) (owner : string)
    (w : World Table) :
  (∀ id, id ∈ l1 ↔ id ∈ l2) →
  get_unlocked_objects (ManyIds l1) owner w = get_unlocked_objects (ManyIds l2) owner w.
Proof.
  intros Hsame. unfold get_unlocked_objects. rewrite !unlocked_among_run.
  do 2 f_equal. apply set_eq. intros id.
  rewrite !elem_of_list_to_set, !list_elem_of_filter. by rewrite Hsame.
Qed.

(** X11. An id of the batch is reported by [get_unlocked_objects] exactly
    when [ensure_write_locked] on it, for the same owner and without the
    tree flag, raises [LockingException]. *)
Theorem get_unlocked_objects_agrees_with_ensure (obj_ids : ObjIds) (owner : string)
    (w : World Table) :
  ∃ result : gset string,
    get_unlocked_objects obj_ids owner w = (Returned result, w)
    ∧ ∀ id, id ∈ result ↔
            id ∈ as_list obj_ids
            ∧ ensure_write_locked id owner false w =
                (Raised (LockingException "Object is not write locked."), w).
Proof.
  eexists. split; [apply unlocked_among_run|].
  intros id. rewrite elem_of_list_to_set, list_elem_of_filter, ensure_write_locked_run.
  destruct (is_write_locked id owner false (table w)); split; intros [? ?];
    split; done.
Qed.
End MoreWrappers.

(** ** The helpers over the lock table of the spec *)

Section MoreOverTheTable.
Context {cfg : Config}.


Lemma try_acquire_unlocked ids owner m (t : LockTable) :
  (∀ id, id ∈ ids → t !! id = None) →
  try_acquire ids owner m t = (true, foldl (hold None owner m) t ids).
Proof.
  intros Hfree. unfold try_acquire, try_acquire_under.
  rewrite (proj2 (forallb_forall _ _)); [done|].
  intros id Hin%list_elem_of_In. unfold compatible. by rewrite Hfree.
Qed.

(** X13. On ids that nobody has locked, [ctx_write_lock] with
    [auto_unlock=False] around a block that returns is granted at the first
    attempt and leaves the lock in place: afterwards [ensure_write_locked]
    returns normally for each of the ids, with and without the tree flag,
    and [get_unlocked_objects] on the same ids returns the empty set. *)
Theorem kept_write_lock_passes_checks (obj_ids : ObjIds) (owner : string)
    (w : World LockTable) :
  (∀ id, id ∈ as_list obj_ids → table w !! id = None) →
  ∃ w',
    ctx_write_lock obj_ids owner false false (ret tt) w = (Returned tt, w')
    ∧ trace w' = trace w ++ [CallWriteLock obj_ids owner true]
    ∧ (∀ id locked_tree, id ∈ as_list obj_ids →
         ensure_write_locked id owner locked_tree w' = (Returned tt, w'))
    ∧ get_unlocked_objects obj_ids owner w' = (Returned ∅, w').
Proof.
  intros Hfree.
  pose proof (try_acquire_unlocked _ owner Write _ Hfree) as Hacq.
  set (t' := foldl (hold None owner Write) (table w) (as_list obj_ids)) in *.
  exists (mkWorld t' (trace w ++ [CallWriteLock obj_ids owner true])).
  assert (∀ id locked_tree, id ∈ as_list obj_ids →
            is_locked id owner Write locked_tree t' = true) as Hlocked.
  { intros id locked_tree Hin. unfold is_locked, t'.
    rewrite lookup_holds, decide_True, (Hfree id Hin) by done. simpl.
    rewrite bool_decide_eq_true_2; [done|set_solver]. }
  split; [|split; [done|split]].
  - rewrite (ctx_write_lock_run obj_ids owner false false (ret tt) w
               (mkWorld t' (trace w ++ [CallWriteLock obj_ids owner true]))); [done|].
    exact (lock_retrying_granted Write obj_ids owner w t' Hacq).
  - intros id locked_tree Hin. rewrite ensure_write_locked_run. simpl.
    by rewrite Hlocked.
  - unfold get_unlocked_objects. rewrite unlocked_among_run. simpl.
    do 2 f_equal. apply set_eq. intros id.
    rewrite elem_of_list_to_set, list_elem_of_filter. split; [|set_solver].
    intros [Hno Hin]. rewrite (Hlocked id false Hin) in Hno. done.
Qed.

(** X14. While an owner holds ids through a granted [ctx_write_lock], any
    other owner entering [ctx_write_lock] or [ctx_read_lock] on a batch that
    shares an id with them gets [CannotLock] after all its attempts; its
    block is not run and the table stays as it was. *)
Theorem write_lock_shuts_out_other_owners (obj_ids obj_ids' : ObjIds)
    (owner other : string) (m : Mode) (auto_unlock dry_run : bool)
    (body : Async LockTable unit) (w w1 : World LockTable) (id : string)
    (tr : list Event) :
  lock_retrying Write obj_ids owner w = (Returned tt, w1) →
  other ≠ owner →
  id ∈ as_list obj_ids →
  id ∈ as_list obj_ids' →
  ctx_lock m obj_ids' other auto_unlock dry_run body (mkWorld (table w1) tr) =
    (Raised (CannotLock lock_fail_message),
     mkWorld (table w1)
       (tr ++ failed_attempts (max_attempts - 1) retry_delay
                (attempt m obj_ids' other false))).
Proof.
  intros Hacq Hne Hin Hin'.
  apply lock_retrying_returned in Hacq as [Hacq _].
  apply ctx_lock_not_entered.
  apply (lock_retrying_refused m obj_ids' other (mkWorld (table w1) tr)). simpl.
  unfold try_acquire, try_acquire_under in *.
  destruct (forallb (compatible (table w) owner Write) (as_list obj_ids)) eqn:Hc;
    [|discriminate].
  injection Hacq as Hacq.
  assert (forallb (compatible (table w1) other m) (as_list obj_ids') = false) as ->;
    [|done].
  apply not_true_iff_false. intros Hall. rewrite forallb_forall in Hall, Hc.
  specialize (Hall id (proj1 (list_elem_of_In _ _) Hin')).
  specialize (Hc id (proj1 (list_elem_of_In _ _) Hin)).
  unfold compatible in Hall, Hc. rewrite <- Hacq, lookup_holds, decide_True in Hall by done.
  destruct m; apply bool_decide_eq_true in Hall.
  - by destruct (table w !! id).
  - destruct (table w !! id) as [r|]; simpl in Hall.
    + apply bool_decide_eq_true in Hc. rewrite Hc in Hall. set_solver.
    + set_solver.
Qed.
End MoreOverTheTable.

(** ** Worked examples for the further properties *)

Section MoreExamples.
#[local] Existing Instance sample_config.
#[local] Existing Instance sample_exceptions.

Lemma make_name_unique_passes_unique_name_witness :
  "box" ≠ ""
  ∧ size ({[ "box"; "box_1"; "cube" ]} : gset string) ≤ 3
  ∧ ∃ name, make_name_unique 3 "box" {[ "box"; "box_1"; "cube" ]} = Some name
            ∧ unique_name name {[ "box"; "box_1"; "cube" ]} = Returned tt.
Proof.
  assert ("box" ≠ "") as Hne by discriminate.
  assert (size ({[ "box"; "box_1"; "cube" ]} : gset string) ≤ 3) as Hsz
    by (vm_compute; lia).
  split; [exact Hne|]. split; [exact Hsz|].
  exact (make_name_unique_passes_unique_name "box" {[ "box"; "box_1"; "cube" ]} 3
           Hne Hsz).
Defined.

Lemma make_name_unique_least_suffix_witness :
  "box" ∈ ({[ "box"; "box_1"; "cube" ]} : gset string)
  ∧ size ({[ "box"; "box_1"; "cube" ]} : gset string) ≤ 3
  ∧ ∃ k, 1 ≤ k
         ∧ make_name_unique 3 "box" {[ "box"; "box_1"; "cube" ]}
           = Some (suffixed "box" k)
         ∧ (suffixed "box" k ∉ ({[ "box"; "box_1"; "cube" ]} : gset string))
         ∧ ∀ j, 1 ≤ j → j < k →
                suffixed "box" j ∈ ({[ "box"; "box_1"; "cube" ]} : gset string).
Proof.
  assert ("box" ∈ ({[ "box"; "box_1"; "cube" ]} : gset string)) as Hin
    by (apply elem_of_union_l, elem_of_union_l, elem_of_singleton; reflexivity).
  assert (size ({[ "box"; "box_1"; "cube" ]} : gset string) ≤ 3) as Hsz
    by (vm_compute; lia).
  split; [exact Hin|]. split; [exact Hsz|].
  exact (make_name_unique_least_suffix "box" {[ "box"; "box_1"; "cube" ]} 3 Hin Hsz).
Defined.

Lemma make_name_unique_twice_distinct_witness :
  S (size ({[ "box"; "box_1"; "cube" ]} : gset string)) ≤ 4
  ∧ ∃ first second,
      make_name_unique 4 "box" {[ "box"; "box_1"; "cube" ]} = Some first
      ∧ make_name_unique 4 "box" ({[first]} ∪ {[ "box"; "box_1"; "cube" ]})
        = Some second
      ∧ first ≠ second
      ∧ (first ∉ ({[ "box"; "box_1"; "cube" ]} : gset string))
      ∧ (second ∉ ({[ "box"; "box_1"; "cube" ]} : gset string)).
Proof.
  assert (S (size ({[ "box"; "box_1"; "cube" ]} : gset string)) ≤ 4) as Hsz
    by (vm_compute; lia).
  split; [exact Hsz|].
  exact (make_name_unique_twice_distinct "box" {[ "box"; "box_1"; "cube" ]} 4 Hsz).
Defined.

Lemma failed_acquisition_skips_block_witness :
  lock_retrying Write (OneId "B") "alice" batch_world =
    (Raised (CannotLock lock_fail_message),
     snd (lock_retrying Write (OneId "B") "alice" batch_world))
  ∧ ctx_lock Write (OneId "B") "alice" false false (raise sample_KeyError) batch_world =
      (Raised (CannotLock lock_fail_message),
       snd (lock_retrying Write (OneId "B") "alice" batch_world)).
Proof.
  assert (lock_retrying Write (OneId "B") "alice" batch_world =
            (Raised (CannotLock lock_fail_message),
             snd (lock_retrying Write (OneId "B") "alice" batch_world))) as Hfail
    by (by vm_compute).
  split; [exact Hfail|].
  exact (proj1 (proj2 (failed_acquisition_skips_block Write (OneId "B") "alice" false
                         false (raise sample_KeyError) batch_world _ _ Hfail))).
Defined.

Lemma unlock_called_at_most_once_witness :
  lock_retrying Write (ManyIds ["a"; "b"]) "alice" empty_world =
    (Returned tt, entered_world Write)
  ∧ count is_release
      (trace (snd (ctx_lock Write (ManyIds ["a"; "b"]) "alice" false false
                     (raise sample_Arcor2Exception) empty_world))) = 0 + 1.
Proof.
  assert (lock_retrying Write (ManyIds ["a"; "b"]) "alice" empty_world =
            (Returned tt, entered_world Write)) as Hacq by (by vm_compute).
  split; [exact Hacq|].
  exact (unlock_called_at_most_once Write (ManyIds ["a"; "b"]) "alice" false false
           (raise sample_Arcor2Exception) empty_world (entered_world Write) Hacq).
Defined.

Lemma get_unlocked_objects_order_irrelevant_witness :
  (∀ id : string, id ∈ ["A"; "B"; "A"] ↔ id ∈ ["B"; "A"])
  ∧ get_unlocked_objects (ManyIds ["A"; "B"; "A"]) "alice" batch_world =
      get_unlocked_objects (ManyIds ["B"; "A"]) "alice" batch_world.
Proof.
  assert (∀ id : string, id ∈ ["A"; "B"; "A"] ↔ id ∈ ["B"; "A"]) as Hsame
    by (intros id; rewrite !elem_of_cons; tauto).
  split; [exact Hsame|].
  exact (get_unlocked_objects_order_irrelevant ["A"; "B"; "A"] ["B"; "A"] "alice"
           batch_world Hsame).
Defined.

Lemma kept_write_lock_passes_checks_witness :
  (∀ id, id ∈ as_list (ManyIds ["a"; "b"]) → table empty_world !! id = None)
  ∧ ∃ w',
      ctx_write_lock (ManyIds ["a"; "b"]) "alice" false false (ret tt) empty_world =
        (Returned tt, w')
      ∧ trace w' = trace empty_world ++ [CallWriteLock (ManyIds ["a"; "b"]) "alice" true]
      ∧ (∀ id locked_tree, id ∈ as_list (ManyIds ["a"; "b"]) →
           ensure_write_locked id "alice" locked_tree w' = (Returned tt, w'))
      ∧ get_unlocked_objects (ManyIds ["a"; "b"]) "alice" w' = (Returned ∅, w').
Proof.
  assert (∀ id, id ∈ as_list (ManyIds ["a"; "b"]) → table empty_world !! id = None)
    as Hfree by (intros id _; reflexivity).
  split; [exact Hfree|].
  exact (kept_write_lock_passes_checks (ManyIds ["a"; "b"]) "alice" empty_world Hfree).
Defined.

Lemma write_lock_shuts_out_other_owners_witness :
  lock_retrying Write (ManyIds ["a"; "b"]) "alice" empty_world =
    (Returned tt, entered_world Write)
  ∧ "bob" ≠ "alice"
  ∧ "a" ∈ as_list (ManyIds ["a"; "b"])
  ∧ "a" ∈ as_list (OneId "a")
  ∧ ctx_lock Read (OneId "a") "bob" true false (ret tt)
      (mkWorld (table (entered_world Write)) []) =
      (Raised (CannotLock lock_fail_message),
       mkWorld (table (entered_world Write))
         ([] ++ failed_attempts (max_attempts - 1) retry_delay
                  (attempt Read (OneId "a") "bob" false))).
Proof.
  assert (lock_retrying Write (ManyIds ["a"; "b"]) "alice" empty_world =
            (Returned tt, entered_world Write)) as Hacq by (by vm_compute).
  assert ("bob" ≠ "alice") as Hne by discriminate.
  assert ("a" ∈ as_list (ManyIds ["a"; "b"])) as Hin by (simpl; left).
  assert ("a" ∈ as_list (OneId "a")) as Hin' by (simpl; left).
  split; [exact Hacq|]. split; [exact Hne|]. split; [exact Hin|]. split; [exact Hin'|].
  exact (write_lock_shuts_out_other_owners (ManyIds ["a"; "b"]) (OneId "a") "alice"
           "bob" Read true false (ret tt) empty_world (entered_world Write) "a" []
           Hacq Hne Hin Hin').
Defined.
End MoreExamples.

(** * Properties of the publishing route *)

Import Builder.

Section Publishing.
Context `{!Arcor2}.

Ltac step := unfold bind, ret, ps, eval, write_file, open_w, write, makedirs, on_disk; simpl.

Lemma model_fetches_app (calls1 calls2 : list StorageCall) :
  model_fetches (calls1 ++ calls2) = model_fetches calls1 + model_fetches calls2.
Proof. unfold model_fetches. by rewrite filter_app, length_app. Qed.


Lemma publish_object_returns data_path ot_path seen (o : SceneObject) (w : World Disk)
    obj_type :
  get_object_type (scene_object_type o) = Returned obj_type →
  (∀ meta, object_type_model obj_type = Some meta →
     ∃ model, get_model (metamodel_id meta) (metamodel_type meta) = Returned model) →
  ∃ seen' w', publish_object data_path ot_path seen o w = (Returned seen', w').
Proof.
  intros Hot Hmodel. unfold publish_object. step. rewrite Hot. simpl.
  destruct (object_type_model obj_type) as [meta|] eqn:Hmeta; simpl; [|by eauto].
  destruct (decide (object_type_id obj_type ∈ seen)); simpl; [by eauto|].
  destruct (Hmodel meta eq_refl) as [model ->]. simpl. eauto.
Qed.

(** The model fetches of one round: none, or one for an id not seen yet. *)
Lemma publish_object_fetches data_path ot_path seen (o : SceneObject) (w : World Disk) :
  ∃ added : gset string,
    model_fetches (storage_calls (table (snd (publish_object data_path ot_path seen o w))))
      = model_fetches (storage_calls (table w)) + size added
    ∧ added ## seen
    ∧ (∀ id, id ∈ added →
         ∃ obj_type, get_object_type (scene_object_type o) = Returned obj_type
                     ∧ id = object_type_id obj_type)
    ∧ (∀ seen', fst (publish_object data_path ot_path seen o w) = Returned seen' →
         seen' = seen ∪ added).
Proof.
  unfold publish_object. step.
  destruct (get_object_type (scene_object_type o)) as [obj_type|e] eqn:Hot; simpl.
  - destruct (object_type_model obj_type) as [meta|]; simpl.
    + destruct (decide (object_type_id obj_type ∈ seen)) as [Hin|Hout]; simpl.
      * exists ∅. rewrite model_fetches_app, size_empty. simpl.
        repeat split; [set_solver|set_solver|]. intros ? [= <-]. set_solver.
      * assert (∃ added : gset string,
                  added = {[object_type_id obj_type]} ∧ size added = 1)
          as (added & Hadded & Hsize) by (eexists; split; [done|apply size_singleton]).
        exists added.
        assert (model_fetches
                  ((storage_calls (table w)
                      ++ [GetObjectType (scene_object_type o)])
                     ++ [GetModel (metamodel_id meta)])
                = model_fetches (storage_calls (table w)) + 1) as Hcount
          by (rewrite !model_fetches_app; unfold model_fetches; simpl; lia).
        destruct (get_model (metamodel_id meta) (metamodel_type meta)); simpl;
          rewrite Hcount, Hsize; subst added;
          (split; [done|]); (split; [set_solver|]);
          (split; [intros id ->%elem_of_singleton; by eauto|]);
          intros ? [= <-]; set_solver.
    + exists ∅. rewrite model_fetches_app, size_empty. simpl.
      repeat split; [set_solver|set_solver|]. intros ? [= <-]. set_solver.
  - exists ∅. rewrite model_fetches_app, size_empty. simpl.
    repeat split; [set_solver|set_solver|done].
Qed.

Lemma objects_loop_returns data_path ot_path :
  ∀ (l : list SceneObject) seen (w : World Disk),
    (∀ o, o ∈ l →
       ∃ obj_type, get_object_type (scene_object_type o) = Returned obj_type
         ∧ ∀ meta, object_type_model obj_type = Some meta →
             ∃ model, get_model (metamodel_id meta) (metamodel_type meta) = Returned model) →
    ∃ seen' w', for_each (publish_object data_path ot_path) l seen w = (Returned seen', w').
Proof.
  induction l as [|o l IH]; intros seen w Hall; simpl; [by eauto|].
  destruct (Hall o) as (obj_type & Hot & Hmodel); [by left|].
  destruct (publish_object_returns data_path ot_path seen o w obj_type Hot Hmodel)
    as (seen1 & w1 & Hone).
  unfold bind at 1. rewrite Hone. apply IH. intros o' Hin. apply Hall. by right.
Qed.

Lemma objects_loop_fetches data_path ot_path :
  ∀ (l : list SceneObject) seen (w : World Disk),
    ∃ added : gset string,
      model_fetches (storage_calls (table (snd
        (for_each (publish_object data_path ot_path) l seen w))))
        = model_fetches (storage_calls (table w)) + size added
      ∧ added ## seen
      ∧ (∀ id, id ∈ added →
           ∃ o obj_type, o ∈ l
             ∧ get_object_type (scene_object_type o) = Returned obj_type
             ∧ id = object_type_id obj_type).
Proof.
  induction l as [|o l IH]; intros seen w; simpl.
  - exists ∅. rewrite size_empty. repeat split; [lia|set_solver|set_solver].
  - unfold bind at 1.
    destruct (publish_object_fetches data_path ot_path seen o w)
      as (added1 & Hcount1 & Hfresh1 & Hfrom1 & Hseen1).
    destruct (publish_object data_path ot_path seen o w) as [[seen1|e] w1];
      simpl in *.
    + specialize (Hseen1 seen1 eq_refl). subst seen1.
      destruct (IH (seen ∪ added1) w1) as (added2 & Hcount2 & Hfresh2 & Hfrom2).
      exists (added1 ∪ added2). rewrite Hcount2, Hcount1.
      rewrite size_union by set_solver. split; [lia|]. split; [set_solver|].
      intros id [Hin|Hin]%elem_of_union.
      * destruct (Hfrom1 id Hin) as (obj_type & ? & ?). exists o, obj_type.
        split; [by left|done].
      * destruct (Hfrom2 id Hin) as (o' & obj_type & ? & ? & ?). exists o', obj_type.
        split; [by right|done].
    + exists added1. split; [done|]. split; [done|].
      intros id Hin. destruct (Hfrom1 id Hin) as (obj_type & ? & ?).
      exists o, obj_type. split; [by left|done].
Qed.


Lemma services_loop_returns srv_path :
  ∀ (l : list SceneService) (w : World Disk),
    (∀ s, s ∈ l → ∃ srv, get_service_type (scene_service_type s) = Returned srv) →
    ∃ w', for_each (publish_service srv_path) l tt w = (Returned tt, w').
Proof.
  induction l as [|s l IH]; intros w Hall; simpl; [by eauto|].
  destruct (Hall s) as (srv & Hsrv); [by left|].
  unfold bind at 1. unfold publish_service at 1. step. rewrite Hsrv. simpl.
  apply IH. intros s' Hin. apply Hall. by right.
Qed.

Lemma services_loop_fetches srv_path :
  ∀ (l : list SceneService) (w : World Disk),
    model_fetches (storage_calls (table (snd (for_each (publish_service srv_path) l tt w))))
    = model_fetches (storage_calls (table w)).
Proof.
  induction l as [|s l IH]; intros w; simpl; [done|].
  unfold bind at 1. unfold publish_service at 1. step.
  destruct (get_service_type (scene_service_type s)) as [srv|e]; simpl.
  - rewrite IH. simpl. rewrite model_fetches_app. unfold model_fetches. simpl. lia.
  - rewrite model_fetches_app. unfold model_fetches. simpl. lia.
Qed.

Lemma gather_returns project_id project scene (w : World Disk) :
  found_all project_id project scene →
  ∃ w', gather project_id w =
          (Returned (project, scene, path_join tmpdirname "arcor2_project"), w').
Proof.
  intros (Hproject & Hscene & Hobjects & Hservices).
  unfold gather. step. rewrite Hproject. simpl. rewrite Hscene. simpl.
  match goal with |- context [for_each (publish_object ?a ?b) ?l ?sn ?w1] =>
    destruct (objects_loop_returns a b l sn w1 Hobjects) as (seen & w2 & ->)
  end; simpl.
  match goal with |- context [for_each (publish_service ?a) ?l tt ?w1] =>
    destruct (services_loop_returns a l w1 Hservices) as (w3 & ->)
  end; simpl.
  by eauto.
Qed.

Lemma gather_fetches project_id (w : World Disk) :
  ∃ added : gset string,
    model_fetches (storage_calls (table (snd (gather project_id w))))
      = model_fetches (storage_calls (table w)) + size added
    ∧ ∀ project scene,
        get_project project_id = Returned project →
        get_scene (project_scene_id project) = Returned scene →
        ∀ id, id ∈ added →
          ∃ o obj_type, o ∈ scene_objects scene
            ∧ get_object_type (scene_object_type o) = Returned obj_type
            ∧ id = object_type_id obj_type.
Proof.
  unfold gather. step.
  destruct (get_project project_id) as [project|e] eqn:Hproject; simpl.
  2: { exists ∅. rewrite model_fetches_app, size_empty. unfold model_fetches at 2.
       simpl. split; [lia|set_solver]. }
  destruct (get_scene (project_scene_id project)) as [scene|e] eqn:Hscene; simpl.
  2: { exists ∅. rewrite !model_fetches_app, size_empty. unfold model_fetches at 2 3.
       simpl. split; [lia|set_solver]. }
  match goal with |- context [for_each (publish_object ?a ?b) ?l ?sn ?w1] =>
    destruct (objects_loop_fetches a b l sn w1) as (added & Hcount & _ & Hfrom);
    destruct (for_each (publish_object a b) l sn w1) as [[seen|e] w2]
  end; simpl in *.
  - match goal with |- context [for_each (publish_service ?a) ?l tt ?w1] =>
      pose proof (services_loop_fetches a l w1) as Hsame;
      destruct (for_each (publish_service a) l tt w1) as [[[]|e] w3]
    end; simpl in *; exists added; rewrite Hsame, Hcount, !model_fetches_app;
      unfold model_fetches at 2 3; simpl;
      (split; [lia|]); intros ? ? [= <-] Hs'; rewrite Hscene in Hs';
      injection Hs' as <-; exact Hfrom.
  - exists added. rewrite Hcount, !model_fetches_app. unfold model_fetches at 2 3.
    simpl. split; [lia|]. intros ? ? [= <-] Hs'. rewrite Hscene in Hs'.
    injection Hs' as <-. exact Hfrom.
Qed.

(** The second [try]. *)
Lemma generate_run project scene project_dir (w : World Disk) :
  storage_calls (table (snd (generate project scene project_dir w)))
    = storage_calls (table w)
  ∧ archives (table (snd (generate project scene project_dir w))) = archives (table w)
  ∧ match script_source project scene with
    | Raised e => fst (generate project scene project_dir w) = Raised e
    | Returned s1 =>
        match derived_resources_class project with
        | Raised e => fst (generate project scene project_dir w) = Raised e
        | Returned s2 =>
            match global_actions_class project with
            | Raised e => fst (generate project scene project_dir w) = Raised e
            | Returned s3 =>
                fst (generate project scene project_dir w) = Returned tt
                ∧ files (table (snd (generate project scene project_dir w))) =
                    <[path_join project_dir "actions.py" := s3]>
                      (<[path_join project_dir "actions.py" := ""]>
                         (<[path_join project_dir "resources.py" := s2]>
                            (<[path_join project_dir "resources.py" := ""]>
                               (<[path_join project_dir "script.py" := s1]>
                                  (<[path_join project_dir "script.py" := ""]>
                                     (files (table w)))))))
            end
        end
    end.
Proof.
  unfold generate. step.
  destruct (script_source project scene); simpl; [|done].
  destruct (derived_resources_class project); simpl; [|done].
  by destruct (global_actions_class project).
Qed.

(** The route, by the way its two [try] blocks end. *)
Lemma project_publish_run project_id (w : World Disk) :
  project_publish project_id w =
    match gather project_id w with
    | (Raised e, w1) =>
        if isinstance e "PersistentStorageException"
        then (Returned (TextResponse (exc_msg e) 404), w1)
        else (Raised e, w1)
    | (Returned (project, scene, project_dir), w1) =>
        match generate project scene project_dir w1 with
        | (Raised e, w2) =>
            if isinstance e "SourceException"
            then (Returned (TextResponse (exc_msg e) 501), w2)
            else (Raised e, w2)
        | (Returned _, w2) =>
            (make_archive (path_join tmpdirname "arcor2_project") project_dir ;;
             send_file (path_join tmpdirname "arcor2_project" +:+ ".zip")) w2
        end
    end.
Proof.
  unfold project_publish, try_except, bind at 1 2, ret.
  destruct (gather project_id w) as [[[[project scene] project_dir]|e] w1]; simpl.
  - unfold bind at 1 2.
    destruct (generate project scene project_dir w1) as [[[]|e] w2]; simpl; [done|].
    by destruct (isinstance e "SourceException").
  - by destruct (isinstance e "PersistentStorageException").
Qed.

Lemma archive_sent base_name root_dir (w : World Disk) :
  (make_archive base_name root_dir ;; send_file (base_name +:+ ".zip")) w =
    (Returned (FileResponse (base_name +:+ ".zip")
       (filter (λ entry, String.prefix (root_dir +:+ "/") (fst entry) = true)
          (files (table w)))),
     mkWorld (mkDisk (dirs (table w)) (files (table w))
                (<[base_name +:+ ".zip" :=
                     filter (λ entry, String.prefix (root_dir +:+ "/") (fst entry) = true)
                       (files (table w))]> (archives (table w)))
                (storage_calls (table w)))
             (trace w)).
Proof.
  unfold make_archive, send_file. step. by rewrite lookup_insert_eq.
Qed.
(** Paths below the project directory. *)
Lemma ends_with_slash_app (a b : string) :
  b ≠ "" → ends_with_slash (a +:+ b) = ends_with_slash b.
Proof.
  intros Hb. induction a as [|c a IH]; [done|].
  change (String c a +:+ b) with (String c (a +:+ b)). cbn [ends_with_slash].
  destruct (a +:+ b) as [|c' rest] eqn:E; [|exact IH].
  destruct a; [by simpl in E|discriminate E].
Qed.

Lemma string_app_assoc (a b c : string) : (a +:+ b) +:+ c = a +:+ b +:+ c.
Proof.
  induction a as [|x a IH]; [done|].
  change ((String x a +:+ b) +:+ c) with (String x ((a +:+ b) +:+ c)).
  change (String x a +:+ b +:+ c) with (String x (a +:+ b +:+ c)).
  by rewrite IH.
Qed.

Lemma path_join_ends_in_name (a name : string) :
  String.prefix "/" name = false → ∃ stem, path_join a name = stem +:+ name.
Proof.
  intros Hrel. unfold path_join. rewrite Hrel.
  destruct (bool_decide (a = "") || ends_with_slash a).
  - by exists a.
  - exists (a +:+ "/"). by rewrite string_app_assoc.
Qed.

Lemma project_dir_plain :
  path_join tmpdirname "arcor2_project" ≠ ""
  ∧ ends_with_slash (path_join tmpdirname "arcor2_project") = false.
Proof.
  destruct (path_join_ends_in_name tmpdirname "arcor2_project") as [stem ->];
    [reflexivity|].
  split.
  - destruct stem; discriminate.
  - by rewrite ends_with_slash_app.
Qed.

Lemma path_join_below (a name : string) :
  String.prefix "/" name = false → a ≠ "" → ends_with_slash a = false →
  path_join a name = a +:+ "/" +:+ name.
Proof.
  intros Hrel Hne Hplain. unfold path_join. rewrite Hrel, Hplain.
  by rewrite bool_decide_eq_false_2.
Qed.

Lemma prefix_app (a b : string) : String.prefix a (a +:+ b) = true.
Proof.
  induction a as [|c a IH]; [by destruct b|].
  change (String c a +:+ b) with (String c (a +:+ b)). cbn [String.prefix].
  destruct (Ascii.ascii_dec c c); [exact IH|done].
Qed.

Lemma prefix_separator (a rest : string) :
  String.prefix (a +:+ "/") (a +:+ "/" +:+ rest) = true.
Proof. rewrite <- string_app_assoc. apply prefix_app. Qed.

Lemma size_image_le (f : string → string) (l : list string) :
  size (list_to_set (f <$> l) : gset string) ≤ size (list_to_set l : gset string).
Proof.
  induction l as [|x l IH]; [done|]. rewrite fmap_cons, !list_to_set_cons.
  destruct (decide (x ∈ (list_to_set l : gset string))) as [Hin|Hout].
  - assert (f x ∈ (list_to_set (f <$> l) : gset string)) as Hfin.
    { apply elem_of_list_to_set, list_elem_of_fmap. exists x.
      split; [done|]. by apply elem_of_list_to_set in Hin. }
    rewrite !subseteq_union_1_L by set_solver. exact IH.
  - rewrite (size_union {[x]}) by set_solver. rewrite size_union_alt, !size_singleton.
    assert (size ((list_to_set (f <$> l) : gset string) ∖ {[f x]})
            ≤ size (list_to_set (f <$> l) : gset string))
      by (apply subseteq_size; set_solver).
    lia.
Qed.

Lemma project_publish_calls project_id (w : World Disk) :
  storage_calls (table (snd (project_publish project_id w)))
  = storage_calls (table (snd (gather project_id w))).
Proof.
  rewrite project_publish_run.
  destruct (gather project_id w) as [[[[project scene] project_dir]|e] w1]; simpl.
  - destruct (generate_run project scene project_dir w1) as (Hcalls & _ & _).
    destruct (generate project scene project_dir w1) as [[[]|e] w2]; simpl in *.
    + by rewrite archive_sent.
    + by destruct (isinstance e "SourceException").
  - by destruct (isinstance e "PersistentStorageException").
Qed.
Lemma for_each_archives {A S0 : Type} (body : S0 → A → Async Disk S0) :
  (∀ s0 x u, archives (table (snd (body s0 x u))) = archives (table u)) →
  ∀ l s0 (u : World Disk),
    archives (table (snd (for_each body l s0 u))) = archives (table u).
Proof.
  intros Hbody. induction l as [|x l IH]; intros s0 u; [done|].
  simpl. unfold bind at 1. specialize (Hbody s0 x u).
  destruct (body s0 x u) as [[s1|e1] u1]; simpl in *; [|done].
  by rewrite IH.
Qed.

Lemma gather_archives project_id (w : World Disk) :
  archives (table (snd (gather project_id w))) = archives (table w).
Proof.
  unfold gather. step.
  destruct (get_project project_id) as [project|]; simpl; [|done].
  destruct (get_scene (project_scene_id project)) as [scene|]; simpl; [|done].
  match goal with |- context [for_each (publish_object ?a ?b) ?l ?sn ?u] =>
    pose proof (for_each_archives (publish_object a b)) as Hobj;
    specialize (Hobj) ;
    assert (archives (table (snd (for_each (publish_object a b) l sn u)))
            = archives (table u)) as Hobj';
    [apply Hobj|destruct (for_each (publish_object a b) l sn u) as [[seen|e1] u1]]
  end; simpl in *.
  - intros sn o u. unfold publish_object. step.
    destruct (get_object_type (scene_object_type o)) as [obj_type|]; simpl; [|done].
    destruct (object_type_model obj_type); simpl; [|done].
    destruct (decide _); simpl; [done|].
    by destruct (get_model _ _).
  - match goal with |- context [for_each (publish_service ?a) ?l tt ?u] =>
      assert (archives (table (snd (for_each (publish_service a) l tt u)))
              = archives (table u)) as Hsrv;
      [apply for_each_archives|
       destruct (for_each (publish_service a) l tt u) as [[[]|e1] u2]]
    end; simpl in *; try congruence.
    intros [] sv u. unfold publish_service. step.
    by destruct (get_service_type (scene_service_type sv)).
  - done.
Qed.


(** X16. When everything the package needs is in the storage and the first
    generator to fail raises a [SourceException], the route answers 501
    with that exception's message, and no archive is made. *)
Theorem failed_generation_answers_501 (project_id : string) (project : Project)
    (scene : Scene) (e : PyExc) (w : World Disk) :
  found_all project_id project scene →
  generation_fails_with project scene e →
  isinstance e "SourceException" = true →
  ∃ w',
    project_publish project_id w = (Returned (TextResponse (exc_msg e) 501), w')
    ∧ archives (table w') = archives (table w).
Proof.
  intros Hfound Hfails Hsource.
  destruct (gather_returns project_id project scene w Hfound) as [w1 Hg].
  assert (archives (table w1) = archives (table w)) as Harch
    by (by rewrite <- (gather_archives project_id w), Hg).
  rewrite project_publish_run, Hg.
  destruct (generate_run project scene (path_join tmpdirname "arcor2_project") w1)
    as (_ & Harch' & Hgen).
  assert (fst (generate project scene (path_join tmpdirname "arcor2_project") w1)
          = Raised e) as Hraised.
  { destruct Hfails as [Hs1|[[s1 Hs1] [Hs2|[[s2 Hs2] Hs3]]]].
    - by rewrite Hs1 in Hgen.
    - by rewrite Hs1, Hs2 in Hgen.
    - by rewrite Hs1, Hs2, Hs3 in Hgen. }
  destruct (generate project scene (path_join tmpdirname "arcor2_project") w1)
    as [[[]|e'] w2]; simpl in *; [done|].
  injection Hraised as ->. rewrite Hsource. exists w2. split; [done|congruence].
Qed.

(** X17. When everything the package needs is in the storage and the three
    generators return, the route answers with the zip made next to the
    project directory.  The zip holds [script.py], [resources.py] and
    [actions.py] of the project directory with the text each generator
    returned, and nothing from outside the project directory. *)
Theorem complete_project_answers_archive (project_id : string) (project : Project)
    (scene : Scene) (s1 s2 s3 : string) (w : World Disk) :
  found_all project_id project scene →
  script_source project scene = Returned s1 →
  derived_resources_class project = Returned s2 →
  global_actions_class project = Returned s3 →
  ∃ content w',
    project_publish project_id w =
      (Returned (FileResponse (path_join tmpdirname "arcor2_project" +:+ ".zip") content),
       w')
    ∧ content !! path_join (path_join tmpdirname "arcor2_project") "script.py" = Some s1
    ∧ content !! path_join (path_join tmpdirname "arcor2_project") "resources.py" = Some s2
    ∧ content !! path_join (path_join tmpdirname "arcor2_project") "actions.py" = Some s3
    ∧ ∀ path text, content !! path = Some text →
        String.prefix (path_join tmpdirname "arcor2_project" +:+ "/") path = true.
Proof.
  intros Hfound Hs1 Hs2 Hs3.
  destruct (gather_returns project_id project scene w Hfound) as [w1 Hg].
  rewrite project_publish_run, Hg.
  destruct (generate_run project scene (path_join tmpdirname "arcor2_project") w1)
    as (_ & _ & Hgen).
  rewrite Hs1, Hs2, Hs3 in Hgen. destruct Hgen as [Hret Hfiles].
  destruct (generate project scene (path_join tmpdirname "arcor2_project") w1)
    as [[[]|e'] w2]; simpl in *; [|done].
  rewrite archive_sent. eexists _, _. split; [reflexivity|].
  destruct project_dir_plain as [Hne Hplain].
  set (project_dir := path_join tmpdirname "arcor2_project") in *.
  assert (∀ name, String.prefix "/" name = false →
            path_join project_dir name = project_dir +:+ "/" +:+ name) as Hjoin
    by (intros name Hrel; by apply path_join_below).
  rewrite !Hjoin in * by reflexivity.
  assert (∀ name name', name ≠ name' →
            project_dir +:+ "/" +:+ name ≠ project_dir +:+ "/" +:+ name') as Hdiff.
  { intros name name' Hnn Heq. apply Hnn.
    by apply (inj (String.app "/")), (inj (String.app project_dir)). }
  rewrite Hfiles. repeat split.
  - apply map_lookup_filter_Some. split; [|apply prefix_separator].
    rewrite !lookup_insert_ne by (apply Hdiff; discriminate).
    apply lookup_insert_eq.
  - apply map_lookup_filter_Some. split; [|apply prefix_separator].
    rewrite !lookup_insert_ne by (apply Hdiff; discriminate).
    apply lookup_insert_eq.
  - apply map_lookup_filter_Some. split; [|apply prefix_separator].
    apply lookup_insert_eq.
  - intros path text Hin. by apply map_lookup_filter_Some in Hin as [_ Hin].
Qed.

(** X18. However many objects a scene has, the route fetches at most one
    model for each distinct object type of the scene, whatever the way it
    ends. *)
Theorem model_fetched_once_per_type (project_id : string) (project : Project)
    (scene : Scene) (w : World Disk) :
  get_project project_id = Returned project →
  get_scene (project_scene_id project) = Returned scene →
  model_fetches (storage_calls (table (snd (project_publish project_id w))))
  ≤ model_fetches (storage_calls (table w))
    + size (list_to_set (scene_object_type <$> scene_objects scene) : gset string).
Proof.
  intros Hproject Hscene. rewrite project_publish_calls.
  destruct (gather_fetches project_id w) as (added & -> & Hfrom).
  specialize (Hfrom project scene Hproject Hscene).
  apply Nat.add_le_mono_l.
  set (id_of := λ ty, match get_object_type ty with
                      | Returned obj_type => object_type_id obj_type
                      | Raised _ => ""
                      end).
  etrans; [|apply (size_image_le id_of)].
  apply subseteq_size. intros id Hin.
  destruct (Hfrom id Hin) as (o & obj_type & Ho & Hot & ->).
  apply elem_of_list_to_set, list_elem_of_fmap. exists (scene_object_type o).
  split; [unfold id_of; by rewrite Hot|].
  apply list_elem_of_fmap. by exists o.
Qed.
End Publishing.

(** ** Worked examples for the publishing route *)


Lemma sample_found_all :
  found_all (H := sample_arcor2) "p1" sample_project sample_scene.
Proof.
  (split; [reflexivity|]); (split; [reflexivity|]); split.
  all: intros x Hin; apply list_elem_of_In in Hin; simpl in Hin.
  all: repeat (destruct Hin as [<-|Hin]); try done.
  all: try (eexists; split; [reflexivity|]; intros meta [= <-]; by eexists).
  all: try (eexists; split; [reflexivity|]; by intros meta [=]).
  all: by eexists.
Qed.

Lemma sample_invalid_found_all :
  found_all (H := sample_invalid) "p1" sample_project sample_scene.
Proof.
  (split; [reflexivity|]); (split; [reflexivity|]); split.
  all: intros x Hin; apply list_elem_of_In in Hin; simpl in Hin.
  all: repeat (destruct Hin as [<-|Hin]); try done.
  all: try (eexists; split; [reflexivity|]; intros meta [= <-]; by eexists).
  all: try (eexists; split; [reflexivity|]; by intros meta [=]).
  all: by eexists.
Qed.


Lemma failed_generation_answers_501_witness :
  found_all (H := sample_invalid) "p1" sample_project sample_scene
  ∧ generation_fails_with (H := sample_invalid) sample_project sample_scene
      sample_SourceException
  ∧ isinstance sample_SourceException "SourceException" = true
  ∧ ∃ w',
      project_publish (H := sample_invalid) "p1" blank =
        (Returned (TextResponse (exc_msg sample_SourceException) 501), w')
      ∧ archives (table w') = archives (table blank).
Proof.
  assert (generation_fails_with (H := sample_invalid) sample_project sample_scene
            sample_SourceException) as Hfails
    by (left; reflexivity).
  assert (isinstance sample_SourceException "SourceException" = true) as Hcls
    by reflexivity.
  split; [exact sample_invalid_found_all|]. split; [exact Hfails|]. split; [exact Hcls|].
  exact (failed_generation_answers_501 (H := sample_invalid) "p1" sample_project
           sample_scene sample_SourceException blank
           sample_invalid_found_all Hfails Hcls).
Defined.

Lemma complete_project_answers_archive_witness :
  found_all (H := sample_arcor2) "p1" sample_project sample_scene
  ∧ script_source (H := sample_arcor2) sample_project sample_scene = Returned "script"
  ∧ derived_resources_class (Arcor2 := sample_arcor2) sample_project = Returned "resources"
  ∧ global_actions_class (Arcor2 := sample_arcor2) sample_project = Returned "actions"
  ∧ ∃ content w',
      project_publish (H := sample_arcor2) "p1" blank =
        (Returned (FileResponse "/tmp/tmpq1/arcor2_project.zip" content), w')
      ∧ content !! "/tmp/tmpq1/arcor2_project/script.py" = Some "script"
      ∧ content !! "/tmp/tmpq1/arcor2_project/resources.py" = Some "resources"
      ∧ content !! "/tmp/tmpq1/arcor2_project/actions.py" = Some "actions"
      ∧ ∀ path text, content !! path = Some text →
          String.prefix "/tmp/tmpq1/arcor2_project/" path = true.
Proof.
  pose proof sample_found_all as Hfound.
  split; [exact Hfound|]. do 3 (split; [reflexivity|]).
  exact (complete_project_answers_archive (H := sample_arcor2) "p1" sample_project
           sample_scene "script" "resources" "actions" blank Hfound
           eq_refl eq_refl eq_refl).
Defined.

Lemma model_fetched_once_per_type_witness :
  get_project (Arcor2 := sample_arcor2) "p1" = Returned sample_project
  ∧ get_scene (Arcor2 := sample_arcor2) "s1" = Returned sample_scene
  ∧ model_fetches
      (storage_calls (table (snd (project_publish (H := sample_arcor2) "p1" blank))))
    ≤ model_fetches (storage_calls (table blank))
      + size (list_to_set ["Box"; "Box"; "Robot"] : gset string).
Proof.
  split; [reflexivity|]. split; [reflexivity|].
  exact (model_fetched_once_per_type (H := sample_arcor2) "p1" sample_project
           sample_scene blank eq_refl eq_refl).
Defined.
